(** * MindMap: canvas engine, persistence routes and Markdown outline

    A shallow embedding of the parts of the MindMap application that carry
    behaviour worth proving:

    - [ExportService.exportMarkdown] (client/src/lib/export-service.ts): the
      depth-first outline of the node/connection graph;
    - [MindMapCanvas] (mind-map-canvas.tsx): viewport transform, default node
      placement, wheel zoom, pan gesture, click handlers;
    - [NodeComponent] (node-component.tsx): the node drag session;
    - [HomePage]: the zoom-in / zoom-out controls;
    - the DELETE routes of server/routes.ts over [DatabaseStorage].

    JavaScript numbers are modelled by exact rationals [Q]; rounding of IEEE
    doubles is outside of this model.  Identifiers are strings.  JavaScript
    [Map]/[Set] objects that are only queried by key are [gmap]/[gset]. *)

From Stdlib Require Import QArith Qminmax Qabs Lqa Ascii String.
From stdpp Require Import gmap strings list fin_maps.

Open Scope Q_scope.

(** ** Data model (shared/schema.ts as used by the sources) *)

Record Point := { px : Q; py : Q }.

Record Node := {
  node_id : string;
  node_mapId : string;
  node_text : string;
  node_x : Q;
  node_y : Q;
  node_width : Q;
  node_height : Q;
  node_shape : string;
  node_color : string;
  node_textColor : string;
}.

Record Connection := {
  conn_id : string;
  conn_mapId : string;
  sourceNodeId : string;
  targetNodeId : string;
}.

Record MapWithNodes := {
  map_id : string;
  map_title : string;
  map_nodes : list Node;
  map_connections : list Connection;
}.

(** [map.nodes.find(n => n.id === id)] *)
Definition findNode (nodes : list Node) (id : string) : option Node :=
  List.find (λ n, String.eqb (node_id n) id) nodes.

(** ** ExportService.exportMarkdown *)

Module ExportService.

(** One emitted outline line: the node and its indentation level. *)
Definition Entry : Type := Node * nat.

(** The mutable variables captured by the closure [addNodeToMarkdown]:
    the [visited] set and the lines appended to [markdown] so far. *)
Record LinState := {
  visited : gset string;
  entries : list Entry;
}.

Definition initState : LinState := {| visited := ∅; entries := [] |}.

Definition markVisited (nodeId : string) (st : LinState) : LinState :=
  {| visited := {[nodeId]} ∪ visited st; entries := entries st |}.

Definition emit (node : Node) (level : nat) (st : LinState) : LinState :=
  {| visited := visited st; entries := entries st ++ [(node, level)] |}.

(** [Array.prototype.forEach] with a callback that updates the captured
    state and may run out of fuel. *)
Fixpoint forEachM {A : Type} (f : A → LinState → option LinState)
    (l : list A) (st : LinState) : option LinState :=
  match l with
  | [] => Some st
  | a :: l' =>
      match f a st with
      | Some st' => forEachM f l' st'
      | None => None
      end
  end.

(** [new Map(map.nodes.map(node => [node.id, node]))]: a later node with
    the same id overwrites an earlier one. *)
Definition buildNodeMap (nodes : list Node) : gmap string Node :=
  foldl (λ m node, <[node_id node := node]> m) ∅ nodes.

(** The [connectionMap] (parent -> children), filled in connection order. *)
Definition addConnection (m : gmap string (list string)) (conn : Connection)
    : gmap string (list string) :=
  <[sourceNodeId conn := default [] (m !! sourceNodeId conn) ++ [targetNodeId conn]]> m.

Definition buildConnectionMap (connections : list Connection)
    : gmap string (list string) :=
  foldl addConnection ∅ connections.

Definition hasIncoming (connections : list Connection) : gset string :=
  list_to_set (map targetNodeId connections).

Definition rootNodes (nodes : list Node) (connections : list Connection)
    : list Node :=
  filter (λ node, node_id node ∉ hasIncoming connections) nodes.

Section Traversal.
Variable nodeMap : gmap string Node.
Variable connectionMap : gmap string (list string).

(** The recursive closure.  [fuel] bounds the recursion depth; [None] is
    fuel exhaustion and nothing else. *)
Fixpoint addNodeToMarkdown (fuel : nat) (nodeId : string) (level : nat)
    (st : LinState) : option LinState :=
  match fuel with
  | O => None
  | S fuel' =>
      if bool_decide (nodeId ∈ visited st) then Some st
      else
        let st1 := markVisited nodeId st in
        match nodeMap !! nodeId with
        | None => Some st1
        | Some node =>
            let st2 := emit node level st1 in
            let children := default [] (connectionMap !! nodeId) in
            forEachM (λ childId, addNodeToMarkdown fuel' childId (S level))
              children st2
        end
  end.

(** [rootNodes.forEach(node => addNodeToMarkdown(node.id))] *)
Definition visitRoots (fuel : nat) (roots : list Node) (st : LinState)
    : option LinState :=
  forEachM (λ node, addNodeToMarkdown fuel (node_id node) 0) roots st.

(** [map.nodes.forEach(node => { if (!visited.has(node.id)) ... })] *)
Definition visitRemaining (fuel : nat) (nodes : list Node) (st : LinState)
    : option LinState :=
  forEachM (λ node st',
      if bool_decide (node_id node ∈ visited st') then Some st'
      else addNodeToMarkdown fuel (node_id node) 0 st')
    nodes st.
End Traversal.

(** The "Nodes" section of [exportMarkdown], as the list of emitted lines,
    run with an explicit recursion budget. *)
Definition linearizeFuel (fuel : nat) (nodes : list Node)
    (connections : list Connection) : option (list Entry) :=
  if (length nodes =? 0)%nat then Some []
  else
    let nodeMap := buildNodeMap nodes in
    let connectionMap := buildConnectionMap connections in
    match visitRoots nodeMap connectionMap fuel (rootNodes nodes connections) initState with
    | None => None
    | Some st1 =>
        match visitRemaining nodeMap connectionMap fuel nodes st1 with
        | None => None
        | Some st2 => Some (entries st2)
        end
    end.

(** The recursion never nests deeper than one frame per node plus the frame
    that finds its argument already visited or unknown. *)
Definition linearize (nodes : list Node) (connections : list Connection)
    : option (list Entry) :=
  linearizeFuel (S (length nodes)) nodes connections.

(** *** Text of the two sections *)

Definition newline : string := String "010"%char "".

Fixpoint repeatString (s : string) (n : nat) : string :=
  match n with
  | O => ""
  | S n' => s +:+ repeatString s n'
  end.

Definition metadata (node : Node) : list string :=
  (if String.eqb (node_shape node) "rectangle" then []
   else ["Shape: " +:+ node_shape node])
  ++ (if String.eqb (node_color node) "#3b82f6" then []
      else ["Color: " +:+ node_color node]).

(** The text appended to [markdown] by one emitting call. *)
Definition renderEntry (e : Entry) : string :=
  let '(node, level) := e in
  let indent := repeatString "  " level in
  indent +:+ "- **" +:+ node_text node +:+ "**"
  +:+ (if (0 <? length (metadata node))%nat
       then " *(" +:+ String.concat ", " (metadata node) +:+ ")*"
       else "")
  +:+ newline.

Definition nodesSection (nodes : list Node) (connections : list Connection)
    : option string :=
  if (length nodes =? 0)%nat
  then Some ("## Nodes" +:+ newline +:+ newline
             +:+ "*No nodes in this map.*" +:+ newline +:+ newline)
  else
    match linearize nodes connections with
    | Some out =>
        Some ("## Nodes" +:+ newline +:+ newline
              +:+ String.concat "" (map renderEntry out))
    | None => None
    end.

(** The "Connections" section: one line per connection whose two endpoints
    are found among the nodes. *)
Definition connectionLine (nodes : list Node) (conn : Connection)
    : option (Node * Node) :=
  match findNode nodes (sourceNodeId conn), findNode nodes (targetNodeId conn) with
  | Some sourceNode, Some targetNode => Some (sourceNode, targetNode)
  | _, _ => None
  end.

Definition connectionLines (nodes : list Node) (connections : list Connection)
    : list (Node * Node) :=
  omap (connectionLine nodes) connections.

End ExportService.

(** ** MindMapCanvas and HomePage *)

Module MindMapCanvas.

Inductive PointerType := mouse | touch | pen.

(** The fields of a DOM pointer / mouse event that the handlers read. *)
Record PointerEvent := {
  clientX : Q;
  clientY : Q;
  button : Z;
  shiftKey : bool;
  ctrlKey : bool;
  metaKey : bool;
  pointerType : PointerType;
}.

Record InsertNode := {
  ins_mapId : string;
  ins_text : string;
  ins_x : Q;
  ins_y : Q;
  ins_width : Q;
  ins_height : Q;
  ins_shape : string;
  ins_color : string;
  ins_textColor : string;
}.

(** Calls of [apiRequest] issued through the three mutations. *)
Inductive ApiRequest :=
| PostNode (nodeData : InsertNode)
| PutNodePosition (id : string) (x y : Q)
| PostConnection (mapId sourceId targetId : string).

(** React state of the canvas, together with the two pieces of state that
    [HomePage] owns and hands down as props ([selectedNodeId] through
    [onSelectNode], [zoomLevel] through [onZoomChange]), and the log of
    requests sent so far. *)
Record State := {
  panOffset : Point;
  isPanning : bool;
  panStart : Point;
  connectionStartNode : option string;
  selectedNodeId : option string;
  zoomLevel : Q;
  requests : list ApiRequest;
}.

Definition initial : State :=
  {| panOffset := {| px := 0; py := 0 |};
     isPanning := false;
     panStart := {| px := 0; py := 0 |};
     connectionStartNode := None;
     selectedNodeId := None;
     zoomLevel := 1;
     requests := [] |}.

Definition setPanOffset (p : Point) (st : State) : State :=
  {| panOffset := p; isPanning := isPanning st; panStart := panStart st;
     connectionStartNode := connectionStartNode st;
     selectedNodeId := selectedNodeId st; zoomLevel := zoomLevel st;
     requests := requests st |}.

Definition setIsPanning (b : bool) (st : State) : State :=
  {| panOffset := panOffset st; isPanning := b; panStart := panStart st;
     connectionStartNode := connectionStartNode st;
     selectedNodeId := selectedNodeId st; zoomLevel := zoomLevel st;
     requests := requests st |}.

Definition setPanStart (p : Point) (st : State) : State :=
  {| panOffset := panOffset st; isPanning := isPanning st; panStart := p;
     connectionStartNode := connectionStartNode st;
     selectedNodeId := selectedNodeId st; zoomLevel := zoomLevel st;
     requests := requests st |}.

Definition setConnectionStartNode (o : option string) (st : State) : State :=
  {| panOffset := panOffset st; isPanning := isPanning st; panStart := panStart st;
     connectionStartNode := o;
     selectedNodeId := selectedNodeId st; zoomLevel := zoomLevel st;
     requests := requests st |}.

Definition onSelectNode (o : option string) (st : State) : State :=
  {| panOffset := panOffset st; isPanning := isPanning st; panStart := panStart st;
     connectionStartNode := connectionStartNode st;
     selectedNodeId := o; zoomLevel := zoomLevel st;
     requests := requests st |}.

Definition onZoomChange (z : Q) (st : State) : State :=
  {| panOffset := panOffset st; isPanning := isPanning st; panStart := panStart st;
     connectionStartNode := connectionStartNode st;
     selectedNodeId := selectedNodeId st; zoomLevel := z;
     requests := requests st |}.

Definition mutate (r : ApiRequest) (st : State) : State :=
  {| panOffset := panOffset st; isPanning := isPanning st; panStart := panStart st;
     connectionStartNode := connectionStartNode st;
     selectedNodeId := selectedNodeId st; zoomLevel := zoomLevel st;
     requests := requests st ++ [r] |}.

(** *** Viewport transform *)

(** The CSS transform list on the nodes container and on the SVG layer:
    [translate(panOffset.x px, panOffset.y px) scale(zoomLevel)] with
    [transformOrigin: 0 0]. *)
Inductive TransformFn :=
| translate (tx ty : Q)
| scale (s : Q).

Definition applyFn (f : TransformFn) (p : Point) : Point :=
  match f with
  | translate tx ty => {| px := px p + tx; py := py p + ty |}
  | scale s => {| px := px p * s; py := py p * s |}
  end.

(** A transform list denotes the product of its matrices, so the rightmost
    function acts on the point first. *)
Definition applyTransform (fs : list TransformFn) (p : Point) : Point :=
  foldr applyFn p fs.

Definition containerTransform (st : State) : list TransformFn :=
  [translate (px (panOffset st)) (py (panOffset st)); scale (zoomLevel st)].

Definition toScreen (st : State) (p : Point) : Point :=
  applyTransform (containerTransform st) p.

(** The conversion in [handleNodeMove]. *)
Definition toLogical (st : State) (q : Point) : Point :=
  {| px := (px q - px (panOffset st)) / zoomLevel st;
     py := (py q - py (panOffset st)) / zoomLevel st |}.

(** *** Handlers *)

Definition handleCanvasClick (targetIsCurrentTarget : bool) (st : State) : State :=
  if targetIsCurrentTarget then onSelectNode None st else st.

(** [rect] is [canvasRef.current?.getBoundingClientRect()], as
    (width, height). *)
Definition handleAddNode (map : option MapWithNodes) (rect : option (Q * Q))
    (st : State) : State :=
  match map with
  | None => st
  | Some m =>
      match rect with
      | None => st
      | Some (width, height) =>
          let centerX := width / 2 in
          let centerY := height / 2 in
          let x := (centerX - px (panOffset st)) / zoomLevel st - 60 in
          let y := (centerY - py (panOffset st)) / zoomLevel st - 30 in
          let nodeCount := Z.of_nat (length (map_nodes m)) in
          let x := x + (inject_Z (nodeCount mod 3) * 160 - 160) in
          let y := y + (inject_Z (nodeCount / 3) * 120 - 60) in
          let x := Qmax 20 x in
          let y := Qmax 20 y in
          mutate (PostNode {| ins_mapId := map_id m; ins_text := "New Node";
                              ins_x := x; ins_y := y;
                              ins_width := 120; ins_height := 60;
                              ins_shape := "rectangle"; ins_color := "#3b82f6";
                              ins_textColor := "#ffffff" |}) st
      end
  end.

Definition handleNodeMove (nodeId : string) (x y : Q) (st : State) : State :=
  let logicalX := (x - px (panOffset st)) / zoomLevel st in
  let logicalY := (y - py (panOffset st)) / zoomLevel st in
  mutate (PutNodePosition nodeId logicalX logicalY) st.

Definition handleNodeClick (map : option MapWithNodes) (nodeId : string)
    (isCtrlKey : bool) (st : State) : State :=
  match isCtrlKey, map with
  | true, Some m =>
      match connectionStartNode st with
      | None => setConnectionStartNode (Some nodeId) st
      | Some start =>
          if String.eqb start nodeId then setConnectionStartNode None st
          else mutate (PostConnection (map_id m) start nodeId) st
      end
  | _, _ => setConnectionStartNode None (onSelectNode (Some nodeId) st)
  end.

(** [createConnectionMutation.onSuccess] *)
Definition onConnectionCreated (st : State) : State :=
  setConnectionStartNode None st.

(** [a > b] on numbers. *)
Definition Qgt_bool (a b : Q) : bool := negb (Qle_bool a b).

(** The [newZoom] expression of [handleWheel]. *)
Definition wheelZoom (zoomLevel delta : Q) : Q :=
  Qmax 0.1 (Qmin 3 (zoomLevel * delta)).

(** [onZoomChange] is the prop that [HomePage] always passes
    ([setZoomLevel]), so the early return on its absence is not taken. *)
Definition handleWheel (deltaY : Q) (st : State) : State :=
  let delta := if Qgt_bool deltaY 0 then 0.9 else 1.1 in
  let newZoom := wheelZoom (zoomLevel st) delta in
  onZoomChange newZoom st.

(** [HomePage.handleZoomIn] and [HomePage.handleZoomOut] *)
Definition handleZoomIn (st : State) : State :=
  onZoomChange (Qmin (zoomLevel st * 1.2) 3) st.

Definition handleZoomOut (st : State) : State :=
  onZoomChange (Qmax (zoomLevel st / 1.2) 0.1) st.

Definition isTouch (t : PointerType) : bool :=
  match t with touch => true | _ => false end.

Definition handlePanStart (e : PointerEvent) (st : State) : State :=
  if (button e =? 1)%Z || ((button e =? 0)%Z && shiftKey e) then
    setPanStart {| px := clientX e - px (panOffset st);
                   py := clientY e - py (panOffset st) |}
      (setIsPanning true st)
  else if isTouch (pointerType e) then
    setPanStart {| px := clientX e - px (panOffset st);
                   py := clientY e - py (panOffset st) |} st
  else st.

Definition moveDistance (e : PointerEvent) (st : State) : Q :=
  Qabs (clientX e - (px (panStart st) + px (panOffset st)))
  + Qabs (clientY e - (py (panStart st) + py (panOffset st))).

(** The body of [handlePanMove].  Both tests read the [isPanning] captured
    by the closure, that is, the value in [st]. *)
Definition handlePanMove (e : PointerEvent) (st : State) : State :=
  let st1 :=
    if negb (isPanning st) && isTouch (pointerType e) then
      if Qgt_bool (moveDistance e st) 10 then setIsPanning true st else st
    else st in
  if negb (isPanning st) then st1
  else setPanOffset {| px := clientX e - px (panStart st);
                       py := clientY e - py (panStart st) |} st1.

Definition handlePanEnd (st : State) : State := setIsPanning false st.

(** The effect that installs [handlePanMove] and [handlePanEnd] on
    [document] runs its body only under [if (isPanning)]. *)
Definition panListenersAttached (st : State) : bool := isPanning st.

(** *** Connection layer *)

(** One [ConnectionLine] element, or [null]. *)
Definition renderConnection (nodes : list Node) (connection : Connection)
    : option (string * Node * Node) :=
  match findNode nodes (sourceNodeId connection),
        findNode nodes (targetNodeId connection) with
  | Some sourceNode, Some targetNode =>
      Some (conn_id connection, sourceNode, targetNode)
  | _, _ => None
  end.

Definition renderConnections (m : MapWithNodes)
    : list (option (string * Node * Node)) :=
  map (renderConnection (map_nodes m)) (map_connections m).

(** *** The element under a click *)

(** What lies under a point of the canvas where there is no node and none
    of the elements drawn above the nodes (add button, empty-state text,
    connection instructions).  The connection layer is
    [pointer-events-none] and is never a target.  The nodes container is
    [absolute inset-0 z-20], with no [pointer-events-none]: it is a target
    wherever its box is. *)
Inductive Element :=
| CanvasElement
| NodesContainer.

(** Whether the box of the nodes container holds the point [p], given
    relative to the corner of the canvas.  [rect] is the size of the canvas,
    (width, height).  [inset-0] gives the container the box of the canvas,
    and the container transform moves its corners (0, 0) and
    (width, height) like any other point. *)
Definition containerCovers (rect : Q * Q) (st : State) (p : Point) : bool :=
  let corner := toScreen st {| px := 0; py := 0 |} in
  let opposite := toScreen st {| px := fst rect; py := snd rect |} in
  Qle_bool (px corner) (px p) && Qgt_bool (px opposite) (px p)
  && Qle_bool (py corner) (py p) && Qgt_bool (py opposite) (py p).

Definition emptySurfaceAt (rect : Q * Q) (st : State) (p : Point) : Element :=
  if containerCovers rect st p then NodesContainer else CanvasElement.

(** [e.target === e.currentTarget] in a handler of the canvas element. *)
Definition targetIsCanvas (target : Element) : bool :=
  match target with
  | CanvasElement => true
  | NodesContainer => false
  end.

End MindMapCanvas.

(** ** NodeComponent *)

Module NodeComponent.
Import MindMapCanvas.

(** Calls made on the props [onSelect] and [onMove]. *)
Inductive Callback :=
| OnSelect (isCtrlKey : bool)
| OnMove (nodeId : string) (x y : Q).

(** React state of one node component, and the inline [left]/[top] written
    directly on the DOM element while dragging. *)
Record State := {
  isDragging : bool;
  dragStart : Point;
  styleOverride : option Point;
}.

Definition initial : State :=
  {| isDragging := false; dragStart := {| px := 0; py := 0 |};
     styleOverride := None |}.

Definition handlePointerDown (node : Node) (e : PointerEvent) (st : State)
    : State * list Callback :=
  if ctrlKey e || metaKey e then (st, [OnSelect true])
  else
    ({| isDragging := true;
        dragStart := {| px := clientX e - node_x node;
                        py := clientY e - node_y node |};
        styleOverride := styleOverride st |},
     [OnSelect false]).

Definition handlePointerMove (e : PointerEvent) (st : State)
    : State * list Callback :=
  if negb (isDragging st) then (st, [])
  else
    ({| isDragging := isDragging st; dragStart := dragStart st;
        styleOverride := Some {| px := clientX e - px (dragStart st);
                                 py := clientY e - py (dragStart st) |} |},
     []).

Definition handlePointerUp (node : Node) (e : PointerEvent) (st : State)
    : State * list Callback :=
  if negb (isDragging st) then (st, [])
  else
    ({| isDragging := false; dragStart := dragStart st;
        styleOverride := styleOverride st |},
     [OnMove (node_id node) (clientX e - px (dragStart st))
                            (clientY e - py (dragStart st))]).

(** The drag listeners are installed on [document] only under
    [if (isDragging)]. *)
Definition dragListenersAttached (st : State) : bool := isDragging st.

End NodeComponent.

(** ** The canvas with one of its node components *)

Module Session.
Import MindMapCanvas.

Record System := {
  canvas : MindMapCanvas.State;
  component : NodeComponent.State;
}.

(** DOM events as they reach the handlers.  A pointer-down on the node
    element calls [stopPropagation], so the canvas never sees it; [move]
    and [up] are delivered on [document] to whichever listeners are
    installed at that moment. *)
Inductive DomEvent :=
| NodePointerDown (e : PointerEvent)
| CanvasPointerDown (e : PointerEvent)
| CanvasClick (targetIsCurrentTarget : bool)
| CanvasWheel (deltaY : Q)
| ToolbarZoomIn
| ToolbarZoomOut
| AddNodeButtonClick (rect : option (Q * Q))
| ConnectionCreated
| DocumentPointerMove (e : PointerEvent)
| DocumentPointerUp (e : PointerEvent).

Section OneNode.
Variable map : option MapWithNodes.
Variable node : Node.

(** The props [onSelect] and [onMove] that the canvas passes down. *)
Definition callback (cb : NodeComponent.Callback) (st : MindMapCanvas.State)
    : MindMapCanvas.State :=
  match cb with
  | NodeComponent.OnSelect isCtrlKey => handleNodeClick map (node_id node) isCtrlKey st
  | NodeComponent.OnMove nodeId x y => handleNodeMove nodeId x y st
  end.

Definition callbacks (cbs : list NodeComponent.Callback)
    (st : MindMapCanvas.State) : MindMapCanvas.State :=
  foldl (λ s cb, callback cb s) st cbs.

Definition fromComponent (sys : System)
    (r : NodeComponent.State * list NodeComponent.Callback) : System :=
  {| canvas := callbacks (snd r) (canvas sys); component := fst r |}.

Definition onCanvas (f : MindMapCanvas.State → MindMapCanvas.State)
    (sys : System) : System :=
  {| canvas := f (canvas sys); component := component sys |}.

Definition step (sys : System) (ev : DomEvent) : System :=
  match ev with
  | NodePointerDown e =>
      fromComponent sys (NodeComponent.handlePointerDown node e (component sys))
  | CanvasPointerDown e => onCanvas (handlePanStart e) sys
  | CanvasClick b => onCanvas (handleCanvasClick b) sys
  | CanvasWheel deltaY => onCanvas (handleWheel deltaY) sys
  | ToolbarZoomIn => onCanvas handleZoomIn sys
  | ToolbarZoomOut => onCanvas handleZoomOut sys
  | AddNodeButtonClick rect => onCanvas (handleAddNode map rect) sys
  | ConnectionCreated => onCanvas onConnectionCreated sys
  | DocumentPointerMove e =>
      let sys1 :=
        if NodeComponent.dragListenersAttached (component sys)
        then fromComponent sys (NodeComponent.handlePointerMove e (component sys))
        else sys in
      {| canvas := if panListenersAttached (canvas sys)
                   then handlePanMove e (canvas sys1) else canvas sys1;
         component := component sys1 |}
  | DocumentPointerUp e =>
      let sys1 :=
        if NodeComponent.dragListenersAttached (component sys)
        then fromComponent sys (NodeComponent.handlePointerUp node e (component sys))
        else sys in
      {| canvas := if panListenersAttached (canvas sys)
                   then handlePanEnd (canvas sys1) else canvas sys1;
         component := component sys1 |}
  end.

Definition run (sys : System) (evs : list DomEvent) : System :=
  foldl step sys evs.

(** One click at the point [p] of the empty surface (no node and no
    overlay there): the pointer-down, the pointer-up and the click, each
    bubbling to the canvas element.  The target of the click is the element
    under [p] at that moment. *)
Definition clickAt (rect : Q * Q) (p : Point) (eDown eUp : PointerEvent)
    (sys : System) : System :=
  let sys1 := run sys [CanvasPointerDown eDown; DocumentPointerUp eUp] in
  step sys1 (CanvasClick (targetIsCanvas (emptySurfaceAt rect (canvas sys1) p))).
End OneNode.

(** One drag of the node: down on the node, moves, up. *)
Definition dragSession (e0 : PointerEvent) (moves : list PointerEvent)
    (eUp : PointerEvent) : list DomEvent :=
  NodePointerDown e0 :: map DocumentPointerMove moves ++ [DocumentPointerUp eUp].


Definition idle : System :=
  {| canvas := MindMapCanvas.initial; component := NodeComponent.initial |}.

End Session.

(** ** Server: DatabaseStorage and the DELETE routes *)

Module Server.

(** The [nodes] and [connections] tables. *)
Record Db := {
  nodeRows : list Node;
  connectionRows : list Connection;
}.

Inductive Response :=
| SendStatus (code : Z)
| Json (code : Z) (message : string).

Definition statusCode (r : Response) : Z :=
  match r with SendStatus code => code | Json code _ => code end.

(** [Response.ok] as the client sees it. *)
Definition ok (r : Response) : bool :=
  (200 <=? statusCode r)%Z && (statusCode r <? 300)%Z.

(** A connection that references the node as source or target. *)
Definition incident (id : string) (c : Connection) : bool :=
  String.eqb (sourceNodeId c) id || String.eqb (targetNodeId c) id.

Section Schema.
(** Whether the foreign keys of [connections] are declared with
    [onDelete: cascade].  The table declarations live in shared/schema.ts;
    the README lists them with the cascade. *)
Variable onDeleteCascade : bool.

(** [db.delete(nodes).where(eq(nodes.id, id))], returning
    [(result.rowCount ?? 0) > 0]. *)
Definition deleteNode (id : string) (db : Db) : bool * Db :=
  let deleted := List.filter (λ n, String.eqb (node_id n) id) (nodeRows db) in
  let rowCount := length deleted in
  let kept := List.filter (λ n, negb (String.eqb (node_id n) id)) (nodeRows db) in
  let conns :=
    if onDeleteCascade && (0 <? rowCount)%nat
    then List.filter (λ c, negb (incident id c)) (connectionRows db)
    else connectionRows db in
  ((0 <? rowCount)%nat, {| nodeRows := kept; connectionRows := conns |}).

Definition deleteConnection (id : string) (db : Db) : bool * Db :=
  let deleted := List.filter (λ c, String.eqb (conn_id c) id) (connectionRows db) in
  let rowCount := length deleted in
  let kept := List.filter (λ c, negb (String.eqb (conn_id c) id)) (connectionRows db) in
  ((0 <? rowCount)%nat, {| nodeRows := nodeRows db; connectionRows := kept |}).

(** [app.delete("/api/nodes/:id", requireAuth, ...)] *)
Definition routeDeleteNode (authenticated : bool) (id : string) (db : Db)
    : Response * Db :=
  if negb authenticated then (Json 401 "Authentication required", db)
  else
    let '(success, db') := deleteNode id db in
    if negb success then (Json 404 "Node not found", db')
    else (SendStatus 204, db').

(** [app.delete("/api/connections/:id", requireAuth, ...)] *)
Definition routeDeleteConnection (authenticated : bool) (id : string) (db : Db)
    : Response * Db :=
  if negb authenticated then (Json 401 "Authentication required", db)
  else
    let '(success, db') := deleteConnection id db in
    if negb success then (Json 404 "Connection not found", db')
    else (SendStatus 204, db').
End Schema.

End Server.

(** ** Small concrete maps *)

Module Examples.

Definition mkNode (id : string) : Node :=
  {| node_id := id; node_mapId := "map-1"; node_text := id;
     node_x := 100; node_y := 100; node_width := 120; node_height := 60;
     node_shape := "rectangle"; node_color := "#3b82f6";
     node_textColor := "#ffffff" |}.

Definition mkConnection (id source target : string) : Connection :=
  {| conn_id := id; conn_mapId := "map-1";
     sourceNodeId := source; targetNodeId := target |}.

Definition nodeA : Node := mkNode "A".
Definition nodeB : Node := mkNode "B".
Definition nodeC : Node := mkNode "C".
Definition nodeT : Node := mkNode "T".

(** A -> B, B -> C, C -> A *)
Definition cycleNodes : list Node := [nodeA; nodeB; nodeC].
Definition cycleConnections : list Connection :=
  [mkConnection "c1" "A" "B"; mkConnection "c2" "B" "C"; mkConnection "c3" "C" "A"].

(** A -> B, A -> C *)
Definition starConnections : list Connection :=
  [mkConnection "c1" "A" "B"; mkConnection "c2" "A" "C"].

(** X -> T with no node X, and T -> A *)
Definition danglingNodes : list Node := [nodeA; nodeT].
Definition danglingConnections : list Connection :=
  [mkConnection "c1" "X" "T"; mkConnection "c2" "T" "A"].

Definition danglingMap : MapWithNodes :=
  {| map_id := "map-1"; map_title := "Dangling";
     map_nodes := danglingNodes; map_connections := danglingConnections |}.

Definition pointerAt (t : MindMapCanvas.PointerType) (x y : Q)
    : MindMapCanvas.PointerEvent :=
  {| MindMapCanvas.clientX := x; MindMapCanvas.clientY := y;
     MindMapCanvas.button := 0; MindMapCanvas.shiftKey := false;
     MindMapCanvas.ctrlKey := false; MindMapCanvas.metaKey := false;
     MindMapCanvas.pointerType := t |}.

(** A canvas with node A selected and recorded as pending connection source. *)
Definition pendingCanvas : MindMapCanvas.State :=
  MindMapCanvas.setConnectionStartNode (Some "A")
    (MindMapCanvas.onSelectNode (Some "A") MindMapCanvas.initial).

Definition pendingSystem : Session.System :=
  {| Session.canvas := pendingCanvas;
     Session.component := NodeComponent.initial |}.

(** A panned and zoomed viewport. *)
Definition pannedCanvas : MindMapCanvas.State :=
  MindMapCanvas.onZoomChange 2.5
    (MindMapCanvas.setPanOffset {| px := 40; py := -15 |} MindMapCanvas.initial).

Definition starMap : MapWithNodes :=
  {| map_id := "map-1"; map_title := "Star";
     map_nodes := [nodeA; nodeB; nodeC]; map_connections := starConnections |}.


(** The size of the canvas element. *)
Definition canvasRect : Q * Q := (800, 600).


Definition afterCoveredClick : Session.System :=
  Session.clickAt (Some starMap) nodeA canvasRect {| px := 5; py := 5 |}
    (pointerAt MindMapCanvas.mouse 5 5) (pointerAt MindMapCanvas.mouse 5 5)
    pendingSystem.

(** The panned and zoomed viewport, nothing selected and no gesture in
    progress. *)
Definition pannedSystem : Session.System :=
  {| Session.canvas := pannedCanvas; Session.component := NodeComponent.initial |}.

(** A drag of node A (at (100, 100)) with the mouse: down at (130, 120),
    three moves, the last one to (230, 170), and the up there. *)
Definition dragOfA : list Session.DomEvent :=
  Session.dragSession (pointerAt MindMapCanvas.mouse 130 120)
    [pointerAt MindMapCanvas.mouse 140 125; pointerAt MindMapCanvas.mouse 180 150;
     pointerAt MindMapCanvas.mouse 230 170]
    (pointerAt MindMapCanvas.mouse 230 170).

(** A press and release on node A at (130, 120), without any movement. *)
Definition pressReleaseOfA : list Session.DomEvent :=
  Session.dragSession (pointerAt MindMapCanvas.mouse 130 120) []
    (pointerAt MindMapCanvas.mouse 130 120).

(** A touch that goes down on the empty canvas at (100, 100) and moves
    10 pixels, or 11 pixels, to the right. *)
Definition touchDown : MindMapCanvas.PointerEvent :=
  pointerAt MindMapCanvas.touch 100 100.
Definition touchMove10 : MindMapCanvas.PointerEvent :=
  pointerAt MindMapCanvas.touch 110 100.
Definition touchMove11 : MindMapCanvas.PointerEvent :=
  pointerAt MindMapCanvas.touch 111 100.
Definition afterTouchDown : MindMapCanvas.State :=
  Session.canvas
    (Session.run None nodeA Session.idle [Session.CanvasPointerDown touchDown]).

(** One stored map with the nodes A, T and the connection T -> A. *)
Definition storedDb : Server.Db :=
  {| Server.nodeRows := danglingNodes;
     Server.connectionRows := [mkConnection "c2" "T" "A"] |}.

(** Two DELETE requests for node T by an authenticated caller, on a schema
    with cascading foreign keys. *)
Definition firstDelete : Server.Response * Server.Db :=
  Server.routeDeleteNode true true "T" storedDb.
Definition secondDelete : Server.Response * Server.Db :=
  Server.routeDeleteNode true true "T" (snd firstDelete).

End Examples.

(** ** Predicates used in the statements *)

Definition entryId (e : ExportService.Entry) : string := node_id (fst e).

(** Both endpoints of the connection are nodes of the map. *)
Definition renderable (nodes : list Node) (c : Connection) : bool :=
  bool_decide (is_Some (findNode nodes (sourceNodeId c)))
  && bool_decide (is_Some (findNode nodes (targetNodeId c))).

(** The target of the connection is a node of the map. *)
Definition targetKnown (nodes : list Node) (c : Connection) : bool :=
  bool_decide (is_Some (findNode nodes (targetNodeId c))).

Definition inZoomRange (z : Q) : Prop := 0.1 <= z /\ z <= 3.

(** Two traversal states that show the same lines and agree on which ids of
    [nodeMap] are visited. *)
Definition sameOutline (nodeMap : gmap string Node)
    (st st' : ExportService.LinState) : Prop :=
  ExportService.entries st = ExportService.entries st' ∧
  ∀ id, id ∈ dom nodeMap →
    (id ∈ ExportService.visited st ↔ id ∈ ExportService.visited st').

(** What holds of the state captured by [addNodeToMarkdown] between any two
    calls: every emitted line shows a node of [nodeMap] whose id is visited,
    no id is emitted twice, and every visited id that [nodeMap] knows has
    been emitted. *)
Record Inv (nodeMap : gmap string Node) (st : ExportService.LinState) : Prop := {
  inv_known : ∀ e, e ∈ ExportService.entries st →
    nodeMap !! entryId e = Some (fst e) ∧ entryId e ∈ ExportService.visited st;
  inv_nodup : NoDup (map entryId (ExportService.entries st));
  inv_emitted : ∀ id, id ∈ ExportService.visited st → id ∈ dom nodeMap →
    id ∈ map entryId (ExportService.entries st);
}.

(** The number of known ids not yet visited: the recursion depth that is
    still possible. *)
Definition pending (nodeMap : gmap string Node) (st : ExportService.LinState) : nat :=
  size (dom nodeMap ∖ ExportService.visited st).

From stdpp Require pretty.

(** ** Shapes of outlines *)

(** Every level is at most one more than the level before it. *)
Fixpoint stepsOk (prev : nat) (levels : list nat) : bool :=
  match levels with
  | [] => true
  | l :: rest => (l <=? S prev)%nat && stepsOk l rest
  end.

(** A nested list as Markdown reads it: the first line is at level 0 and no
    line is more than one level deeper than the line before it. *)
Definition wellNested (levels : list nat) : bool :=
  match levels with
  | [] => true
  | l :: rest => (l =? 0)%nat && stepsOk l rest
  end.

(** Some connection goes from node [p] to node [n]. *)
Definition connects (connections : list Connection) (p n : Node) : Prop :=
  ∃ c, c ∈ connections ∧ sourceNodeId c = node_id p ∧ targetNodeId c = node_id n.

(** Every line at level k+1 has its Markdown parent, the nearest line at
    level k before it with only deeper lines in between, and the parent's
    node is connected to the line's node. *)
Definition parentsOk (connections : list Connection)
    (es : list ExportService.Entry) : Prop :=
  ∀ pre n k post, es = pre ++ (n, S k) :: post →
    ∃ pre1 p mid, pre = pre1 ++ (p, k) :: mid ∧
                  Forall (λ e, (S k ≤ snd e)%nat) mid ∧
                  connects connections p n.

(** What the caller of [addNodeToMarkdown nodeId level] has emitted so far:
    at a level above 0, a line one level up whose node has a connection to
    [nodeId], followed by deeper lines only. *)
Definition underParent (connections : list Connection) (nodeId : string)
    (level : nat) (es : list ExportService.Entry) : Prop :=
  match level with
  | O => True
  | S k => ∃ pre1 p mid, es = pre1 ++ (p, k) :: mid ∧
                         Forall (λ e, (S k ≤ snd e)%nat) mid ∧
                         ∃ c, c ∈ connections ∧ sourceNodeId c = node_id p ∧
                              targetNodeId c = nodeId
  end.

(** ** ExportService.exportMap: the file name *)

Module ExportMap.

(** A character of a title stands for one UTF-16 code unit below 256. *)

(** The class [a-z0-9] under the [i] flag: ASCII letters and digits. *)
Definition isAlnum (c : ascii) : bool :=
  let n := nat_of_ascii c in
  ((48 <=? n) && (n <=? 57) || (65 <=? n) && (n <=? 90)
   || (97 <=? n) && (n <=? 122))%nat.

(** [toLowerCase] on one code unit: A-Z and the capital letters of Latin-1
    move up by 32, everything else stays. *)
Definition toLowerCaseUnit (c : ascii) : ascii :=
  let n := nat_of_ascii c in
  if ((65 <=? n) && (n <=? 90) || (192 <=? n) && (n <=? 214)
      || (216 <=? n) && (n <=? 222))%nat
  then ascii_of_nat (n + 32) else c.

Fixpoint mapString (f : ascii → ascii) (s : string) : string :=
  match s with
  | EmptyString => EmptyString
  | String c s' => String (f c) (mapString f s')
  end.

(** [title.replace(/[^a-z0-9]/gi, '_')] *)
Definition replaceNonAlnum (title : string) : string :=
  mapString (λ c, if isAlnum c then c else "_"%char) title.

Definition toLowerCase (s : string) : string := mapString toLowerCaseUnit s.

(** [const filename = `${map.title.replace(/[^a-z0-9]/gi, '_').toLowerCase()}`] *)
Definition filename (title : string) : string :=
  toLowerCase (replaceNonAlnum title).

(** Lowercase ASCII letter, digit or underscore. *)
Definition isFileChar (c : ascii) : bool :=
  let n := nat_of_ascii c in
  ((48 <=? n) && (n <=? 57) || (97 <=? n) && (n <=? 122) || (n =? 95))%nat.

Fixpoint allChars (p : ascii → bool) (s : string) : bool :=
  match s with
  | EmptyString => true
  | String c s' => p c && allChars p s'
  end.

(** The name under which a format is downloaded. *)
Definition downloadName (title extension : string) : string :=
  filename title +:+ "." +:+ extension.

End ExportMap.

(** ** Toolbar *)

Module Toolbar.
Import MindMapCanvas.

(** [disabled={!onZoomIn || zoomLevel >= 3}] and
    [disabled={!onZoomOut || zoomLevel <= 0.1}]; [HomePage] passes both
    handlers. *)
Definition zoomInDisabled (zoomLevel : Q) : bool := Qle_bool 3 zoomLevel.
Definition zoomOutDisabled (zoomLevel : Q) : bool := Qle_bool zoomLevel 0.1.

(** A click on a zoom button: a disabled button does not call its handler. *)
Definition clickZoomIn (st : State) : State :=
  if zoomInDisabled (zoomLevel st) then st else handleZoomIn st.

Definition clickZoomOut (st : State) : State :=
  if zoomOutDisabled (zoomLevel st) then st else handleZoomOut st.

Definition plural (n : Z) : string := if (1 <? n)%Z then "s" else "".

(** [formatTimeAgo], on [diffMs = now.getTime() - past.getTime()] for two
    valid dates. *)
Definition formatTimeAgo (diffMs : Z) : string :=
  let diffMinutes := (diffMs / (1000 * 60))%Z in
  if (diffMinutes <? 1)%Z then "Saved just now"
  else if (diffMinutes <? 60)%Z
  then "Saved " +:+ pretty.pretty diffMinutes +:+ " minute" +:+ plural diffMinutes +:+ " ago"
  else
    let diffHours := (diffMinutes / 60)%Z in
    if (diffHours <? 24)%Z
    then "Saved " +:+ pretty.pretty diffHours +:+ " hour" +:+ plural diffHours +:+ " ago"
    else
      let diffDays := (diffHours / 24)%Z in
      "Saved " +:+ pretty.pretty diffDays +:+ " day" +:+ plural diffDays +:+ " ago".

End Toolbar.

(** ** The canvas as its children and the page call it *)

Module CanvasCalls.
Import MindMapCanvas.

(** Calls into the canvas: the props handed to the node components
    ([onSelect], [onMove]), its own DOM handlers, and the mutation callback. *)
Inductive Call :=
| Select (nodeId : string) (isCtrlKey : bool)
| Move (nodeId : string) (x y : Q)
| ClickCanvas (targetIsCurrentTarget : bool)
| Wheel (deltaY : Q)
| AddNode (rect : option (Q * Q))
| Created
| PanStart (e : PointerEvent)
| PanMove (e : PointerEvent)
| PanEnd.

Definition call (map : option MapWithNodes) (st : State) (c : Call) : State :=
  match c with
  | Select nodeId isCtrlKey => handleNodeClick map nodeId isCtrlKey st
  | Move nodeId x y => handleNodeMove nodeId x y st
  | ClickCanvas b => handleCanvasClick b st
  | Wheel deltaY => handleWheel deltaY st
  | AddNode rect => handleAddNode map rect st
  | Created => onConnectionCreated st
  | PanStart e => handlePanStart e st
  | PanMove e => handlePanMove e st
  | PanEnd => handlePanEnd st
  end.

Definition calls (map : option MapWithNodes) (st : State) (cs : list Call) : State :=
  foldl (call map) st cs.

(** A request that creates a connection from a node to itself. *)
Definition isSelfLoop (r : ApiRequest) : bool :=
  match r with
  | PostConnection _ sourceId targetId => String.eqb sourceId targetId
  | _ => false
  end.

(** The rectangles of two new nodes do not meet. *)
Definition apart (a b : InsertNode) : Prop :=
  ins_x a + ins_width a <= ins_x b ∨ ins_x b + ins_width b <= ins_x a ∨
  ins_y a + ins_height a <= ins_y b ∨ ins_y b + ins_height b <= ins_y a.

(** The node that the add-node button asks to create. *)
Definition createdNode (m : MapWithNodes) (rect : Q * Q) (st : State)
    : option InsertNode :=
  match last (requests (handleAddNode (Some m) (Some rect) st)) with
  | Some (PostNode nodeData) => Some nodeData
  | _ => None
  end.

End CanvasCalls.

(** ** More concrete inputs *)

Module MoreExamples.

Definition emptyMap : MapWithNodes :=
  {| map_id := "map-2"; map_title := "Empty";
     map_nodes := []; map_connections := [] |}.

(** A pointer-down on a node with Ctrl held. *)
Definition ctrlDown : MindMapCanvas.PointerEvent :=
  {| MindMapCanvas.clientX := 130; MindMapCanvas.clientY := 120;
     MindMapCanvas.button := 0; MindMapCanvas.shiftKey := false;
     MindMapCanvas.ctrlKey := true; MindMapCanvas.metaKey := false;
     MindMapCanvas.pointerType := MindMapCanvas.mouse |}.

(** A pointer-down on the canvas with the middle button. *)
Definition middleDown : MindMapCanvas.PointerEvent :=
  {| MindMapCanvas.clientX := 10; MindMapCanvas.clientY := 10;
     MindMapCanvas.button := 1; MindMapCanvas.shiftKey := false;
     MindMapCanvas.ctrlKey := false; MindMapCanvas.metaKey := false;
     MindMapCanvas.pointerType := MindMapCanvas.mouse |}.

End MoreExamples.

(** ** Server: maps, node updates and the remaining routes *)

Module Api.

(** A row of the [maps] table. *)
Record MapRow := {
  mrow_id : string;
  mrow_title : string;
  mrow_userId : string;
  mrow_updatedAt : Z;
}.

(** The three tables. *)
Record Store := {
  mapRows : list MapRow;
  tables : Server.Db;
}.

Definition owned (id userId : string) (r : MapRow) : bool :=
  String.eqb (mrow_id r) id && String.eqb (mrow_userId r) userId.

(** [DatabaseStorage.getMap]: the first map row with this id and owner,
    with the nodes and connections whose [mapId] is this id. *)
Definition getMap (id userId : string) (s : Store)
    : option (MapRow * list Node * list Connection) :=
  match List.find (owned id userId) (mapRows s) with
  | None => None
  | Some row =>
      Some (row,
            List.filter (λ n, String.eqb (node_mapId n) id) (Server.nodeRows (tables s)),
            List.filter (λ c, String.eqb (conn_mapId c) id)
              (Server.connectionRows (tables s)))
  end.

(** [Partial<InsertMap>]: the title, when given. *)
Definition setMap (title : option string) (now : Z) (r : MapRow) : MapRow :=
  {| mrow_id := mrow_id r; mrow_title := default (mrow_title r) title;
     mrow_userId := mrow_userId r; mrow_updatedAt := now |}.

(** [DatabaseStorage.updateMap]: [{ ...updates, updatedAt: new Date() }]
    on the rows with this id and owner; the first updated row is returned. *)
Definition updateMap (id userId : string) (title : option string) (now : Z)
    (s : Store) : option MapRow * Store :=
  (head (map (setMap title now) (List.filter (owned id userId) (mapRows s))),
   {| mapRows := map (λ r, if owned id userId r then setMap title now r else r)
                   (mapRows s);
      tables := tables s |}).

Section Schema.
(** Whether the foreign keys are declared with [onDelete: cascade], as the
    README lists them. *)
Variable onDeleteCascade : bool.

(** [DatabaseStorage.deleteMap].  With the cascade, the nodes of a deleted
    map go with it, and so do the connections of the map and the
    connections that reference one of those nodes. *)
Definition deleteMap (id userId : string) (s : Store) : bool * Store :=
  let rowCount := length (List.filter (owned id userId) (mapRows s)) in
  let kept := List.filter (λ r, negb (owned id userId r)) (mapRows s) in
  let db := tables s in
  let db' :=
    if onDeleteCascade && (0 <? rowCount)%nat then
      let gone := List.filter (λ n, String.eqb (node_mapId n) id) (Server.nodeRows db) in
      let isGone := λ nodeId, existsb (λ n, String.eqb (node_id n) nodeId) gone in
      {| Server.nodeRows :=
           List.filter (λ n, negb (String.eqb (node_mapId n) id)) (Server.nodeRows db);
         Server.connectionRows :=
           List.filter (λ c, negb (String.eqb (conn_mapId c) id)
                             && negb (isGone (sourceNodeId c))
                             && negb (isGone (targetNodeId c)))
             (Server.connectionRows db) |}
    else db in
  ((0 <? rowCount)%nat, {| mapRows := kept; tables := db' |}).
End Schema.

(** [Partial<InsertNode>]: each column, when given. *)
Record NodeUpdates := {
  upd_mapId : option string;
  upd_text : option string;
  upd_x : option Q;
  upd_y : option Q;
  upd_width : option Q;
  upd_height : option Q;
  upd_shape : option string;
  upd_color : option string;
  upd_textColor : option string;
}.

(** The body that [handleNodeMove] sends: [{ x, y }]. *)
Definition positionUpdate (x y : Q) : NodeUpdates :=
  {| upd_mapId := None; upd_text := None; upd_x := Some x; upd_y := Some y;
     upd_width := None; upd_height := None; upd_shape := None;
     upd_color := None; upd_textColor := None |}.

Definition setsNothing (u : NodeUpdates) : bool :=
  match u with
  | {| upd_mapId := None; upd_text := None; upd_x := None; upd_y := None;
       upd_width := None; upd_height := None; upd_shape := None;
       upd_color := None; upd_textColor := None |} => true
  | _ => false
  end.

(** What [.set(updates)] makes of a row.  [x] and [y] are [real] columns:
    the row holds, and [.returning()] gives back, the number as that column
    stores it, [stored x].  The other columns are taken as given. *)
Definition setNode (stored : Q → Q) (u : NodeUpdates) (n : Node) : Node :=
  {| node_id := node_id n;
     node_mapId := default (node_mapId n) (upd_mapId u);
     node_text := default (node_text n) (upd_text u);
     node_x := default (node_x n) (stored <$> upd_x u);
     node_y := default (node_y n) (stored <$> upd_y u);
     node_width := default (node_width n) (upd_width u);
     node_height := default (node_height n) (upd_height u);
     node_shape := default (node_shape n) (upd_shape u);
     node_color := default (node_color n) (upd_color u);
     node_textColor := default (node_textColor n) (upd_textColor u) |}.

(** [DatabaseStorage.updateNode]: [.set(updates).where(eq(nodes.id, id))],
    returning the first updated row.  [None] is the query builder refusing
    an update that sets no column. *)
Definition updateNode (stored : Q → Q) (id : string) (u : NodeUpdates)
    (db : Server.Db) : option (option Node * Server.Db) :=
  if setsNothing u then None
  else
    Some (head (map (setNode stored u)
                  (List.filter (λ n, String.eqb (node_id n) id) (Server.nodeRows db))),
          {| Server.nodeRows :=
               map (λ n, if String.eqb (node_id n) id then setNode stored u n else n)
                 (Server.nodeRows db);
             Server.connectionRows := Server.connectionRows db |}).

(** What a route sends back. *)
Inductive Body :=
| NoBody
| Message (message : string)
| MapBody (row : MapRow) (nodes : list Node) (connections : list Connection)
| MapRowBody (row : MapRow)
| NodeBody (node : Node).

Inductive Reply :=
| Respond (status : Z) (body : Body)
| NextError.

Inductive Request :=
| GetMap (id : string)
| PutMap (id : string) (title : option string)
| DeleteMap (id : string)
| PutNode (id : string) (updates : NodeUpdates)
| DeleteNode (id : string)
| DeleteConnection (id : string).

Definition notFound (what : string) : Reply :=
  Respond 404 (Message (what +:+ " not found")).

(** The routes behind [requireAuth].  [user] is [req.user.id] of an
    authenticated session; [now] is the clock read by [updateMap]; [stored]
    is the rounding of the [real] columns.  [accepts] tells whether
    [insertNodeSchema.partial().parse(req.body)] returns for the body of a
    node update: the schema is declared in shared/schema, and on a body it
    refuses [parse] throws and the route passes the error on.  Every string
    is a title for [insertMapSchema.partial()]. *)
Definition handle (accepts : NodeUpdates → bool) (stored : Q → Q)
    (onDeleteCascade : bool) (user : option string)
    (now : Z) (req : Request) (s : Store) : Reply * Store :=
  match user with
  | None => (Respond 401 (Message "Authentication required"), s)
  | Some userId =>
      match req with
      | GetMap id =>
          match getMap id userId s with
          | None => (notFound "Map", s)
          | Some (row, nodes, connections) =>
              (Respond 200 (MapBody row nodes connections), s)
          end
      | PutMap id title =>
          match updateMap id userId title now s with
          | (None, s') => (notFound "Map", s')
          | (Some row, s') => (Respond 200 (MapRowBody row), s')
          end
      | DeleteMap id =>
          match deleteMap onDeleteCascade id userId s with
          | (false, s') => (notFound "Map", s')
          | (true, s') => (Respond 204 NoBody, s')
          end
      | PutNode id updates =>
          if negb (accepts updates) then (NextError, s)
          else
            match updateNode stored id updates (tables s) with
            | None => (NextError, s)
            | Some (None, db') =>
                (notFound "Node", {| mapRows := mapRows s; tables := db' |})
            | Some (Some node, db') =>
                (Respond 200 (NodeBody node), {| mapRows := mapRows s; tables := db' |})
            end
      | DeleteNode id =>
          match Server.deleteNode onDeleteCascade id (tables s) with
          | (false, db') => (notFound "Node", {| mapRows := mapRows s; tables := db' |})
          | (true, db') => (Respond 204 NoBody, {| mapRows := mapRows s; tables := db' |})
          end
      | DeleteConnection id =>
          match Server.deleteConnection id (tables s) with
          | (false, db') =>
              (notFound "Connection", {| mapRows := mapRows s; tables := db' |})
          | (true, db') => (Respond 204 NoBody, {| mapRows := mapRows s; tables := db' |})
          end
      end
  end.

(** Every connection row references node rows: what the foreign keys of
    [connections] require. *)
Definition wellReferenced (db : Server.Db) : Prop :=
  ∀ c, c ∈ Server.connectionRows db →
    sourceNodeId c ∈ map node_id (Server.nodeRows db) ∧
    targetNodeId c ∈ map node_id (Server.nodeRows db).

(** Every connection row joins two node rows of its own map, as the
    connections that the canvas creates do: [handleNodeClick] joins two
    nodes of the displayed map under that map's id. *)
Definition withinMaps (db : Server.Db) : Prop :=
  ∀ c, c ∈ Server.connectionRows db →
    (∃ n, n ∈ Server.nodeRows db ∧ node_id n = sourceNodeId c
          ∧ node_mapId n = conn_mapId c) ∧
    (∃ n, n ∈ Server.nodeRows db ∧ node_id n = targetNodeId c
          ∧ node_mapId n = conn_mapId c).

End Api.

Module ApiExamples.

(** Alice's map "map-1" with the nodes A, T and the connection T -> A. *)
Definition aliceStore : Api.Store :=
  {| Api.mapRows := [{| Api.mrow_id := "map-1"; Api.mrow_title := "Star";
                        Api.mrow_userId := "alice"; Api.mrow_updatedAt := 0 |}];
     Api.tables := Examples.storedDb |}.

(** A schema for node updates that takes coordinates up to 8388607 in
    absolute value. *)
Definition boundedCoordinates (u : Api.NodeUpdates) : bool :=
  let bounded := λ o : option Q,
    match o with
    | None => true
    | Some q => Qle_bool (-8388607) q && Qle_bool q 8388607
    end in
  bounded (Api.upd_x u) && bounded (Api.upd_y u).

(** Alice's map "map-1" as before, and Bob's map "map-2" with the node Z. *)
Definition nodeZ : Node :=
  {| node_id := "Z"; node_mapId := "map-2"; node_text := "Z";
     node_x := 20; node_y := 20; node_width := 120; node_height := 60;
     node_shape := "circle"; node_color := "#3b82f6";
     node_textColor := "#ffffff" |}.

Definition aliceRow : Api.MapRow :=
  {| Api.mrow_id := "map-1"; Api.mrow_title := "Star";
     Api.mrow_userId := "alice"; Api.mrow_updatedAt := 0 |}.

Definition twoMapStore : Api.Store :=
  {| Api.mapRows := [aliceRow;
                     {| Api.mrow_id := "map-2"; Api.mrow_title := "Other";
                        Api.mrow_userId := "bob"; Api.mrow_updatedAt := 0 |}];
     Api.tables :=
       {| Server.nodeRows := Server.nodeRows Examples.storedDb ++ [nodeZ];
          Server.connectionRows := Server.connectionRows Examples.storedDb |} |}.

End ApiExamples.

(** * Facts about the Markdown outline *)

Section OutlineFacts.
Import ExportService.
Local Close Scope Q_scope.

Section BuildMaps.

Lemma nodeMap_fold_lookup (nodes : list Node) (m : gmap string Node) id n :
  foldl (λ m node, <[node_id node := node]> m) m nodes !! id = Some n →
  (n ∈ nodes ∧ node_id n = id) ∨ m !! id = Some n.
Proof.
  revert m. induction nodes as [|a nodes IH]; simpl; intros m H; [by right|].
  apply IH in H as [[Hin Hid]|H].
  - left. split; [by right|done].
  - destruct (decide (node_id a = id)) as [Heq|Hne].
    + rewrite <- Heq, lookup_insert_eq in H. injection H as ->.
      left. split; [by left|done].
    + rewrite lookup_insert_ne in H by done. by right.
Qed.

Lemma nodeMap_fold_fresh (nodes : list Node) (m : gmap string Node) id :
  id ∉ map node_id nodes →
  foldl (λ m node, <[node_id node := node]> m) m nodes !! id = m !! id.
Proof.
  revert m. induction nodes as [|a nodes IH]; simpl; intros m H; [done|].
  apply not_elem_of_cons in H as [Hne Hnot].
  rewrite IH by done. by rewrite lookup_insert_ne.
Qed.

Lemma nodeMap_fold_dom (nodes : list Node) (m : gmap string Node) :
  dom (foldl (λ m node, <[node_id node := node]> m) m nodes)
  = dom m ∪ list_to_set (map node_id nodes).
Proof.
  revert m. induction nodes as [|a nodes IH]; simpl; intros m.
  - set_solver.
  - rewrite IH, dom_insert_L. set_solver.
Qed.

Lemma buildNodeMap_lookup nodes id n :
  buildNodeMap nodes !! id = Some n → n ∈ nodes ∧ node_id n = id.
Proof.
  intros H. apply nodeMap_fold_lookup in H as [H|H]; [done|].
  by rewrite lookup_empty in H.
Qed.

Lemma buildNodeMap_dom nodes :
  dom (buildNodeMap nodes) = list_to_set (map node_id nodes).
Proof. unfold buildNodeMap. rewrite nodeMap_fold_dom. set_solver. Qed.

Lemma buildNodeMap_NoDup nodes n :
  NoDup (map node_id nodes) → n ∈ nodes →
  buildNodeMap nodes !! node_id n = Some n.
Proof.
  unfold buildNodeMap. generalize (∅ : gmap string Node).
  induction nodes as [|a nodes IH]; simpl; intros m Hnd Hin.
  - by apply elem_of_nil in Hin.
  - apply NoDup_cons in Hnd as [Hfresh Hnd].
    apply elem_of_cons in Hin as [->|Hin].
    + rewrite nodeMap_fold_fresh by done. apply lookup_insert_eq.
    + by apply IH.
Qed.

Lemma size_list_to_set_le (l : list string) :
  size (list_to_set l : gset string) ≤ length l.
Proof.
  induction l as [|a l IH].
  - rewrite list_to_set_nil, size_empty. done.
  - rewrite list_to_set_cons, size_union_alt, size_singleton. simpl.
    assert (size ((list_to_set l : gset string) ∖ {[a]}) ≤ size (list_to_set l : gset string))
      by (apply subseteq_size; set_solver).
    lia.
Qed.

End BuildMaps.

Section ForEach.
(** A loop whose body keeps [P], only grows [visited], and marks the key
    of the element it is given, marks every key of the list. *)
Lemma forEachM_visits {A} (P : LinState → Prop) (key : A → string)
    (f : A → LinState → option LinState) (l : list A) (st : LinState) :
  (∀ a s, P s → ∃ s', f a s = Some s' ∧ P s' ∧
                   visited s ⊆ visited s' ∧ key a ∈ visited s') →
  P st →
  ∃ st', forEachM f l st = Some st' ∧ P st' ∧ visited st ⊆ visited st' ∧
         ∀ a, a ∈ l → key a ∈ visited st'.
Proof.
  intros Hstep. revert st. induction l as [|a l IH]; simpl; intros st HP.
  - exists st. split; [done|]. split; [done|]. split; [done|].
    intros a Ha. by apply elem_of_nil in Ha.
  - destruct (Hstep a st HP) as (s1 & -> & HP1 & Hsub1 & Hkey1).
    destruct (IH s1 HP1) as (s2 & -> & HP2 & Hsub2 & Hkeys).
    exists s2. split; [done|]. split; [done|]. split; [set_solver|].
    intros b Hb. apply elem_of_cons in Hb as [->|Hb]; [set_solver|by apply Hkeys].
Qed.

(** More budget never changes a result already obtained. *)
Lemma forEachM_ext_some {A} (f g : A → LinState → option LinState) l st st' :
  (∀ a s s', f a s = Some s' → g a s = Some s') →
  forEachM f l st = Some st' → forEachM g l st = Some st'.
Proof.
  intros Hfg. revert st. induction l as [|a l IH]; simpl; intros st H; [done|].
  destruct (f a st) as [s1|] eqn:Hf; [|done].
  rewrite (Hfg _ _ _ Hf). by apply IH.
Qed.

End ForEach.

Section TraversalFacts.
Variable nodeMap : gmap string Node.
Variable connectionMap : gmap string (list string).
Hypothesis nodeMap_keyed : ∀ id n, nodeMap !! id = Some n → node_id n = id.

Lemma Inv_init : Inv nodeMap initState.
Proof.
  split; simpl.
  - intros e He. by apply elem_of_nil in He.
  - constructor.
  - intros id Hid. by apply not_elem_of_empty in Hid.
Qed.

Lemma pending_mono st st' :
  visited st ⊆ visited st' → pending nodeMap st' ≤ pending nodeMap st.
Proof. intros H. unfold pending. apply subseteq_size. set_solver. Qed.

Lemma Inv_unknown id st :
  Inv nodeMap st → nodeMap !! id = None → Inv nodeMap (markVisited id st).
Proof.
  intros [Hk Hn He] Hnone. split; simpl.
  - intros e Hin. destruct (Hk e Hin). split; [done|set_solver].
  - done.
  - intros id' Hv Hd. apply He; [|done].
    apply elem_of_union in Hv as [Hv|Hv]; [|done].
    apply elem_of_singleton in Hv as ->.
    apply elem_of_dom in Hd as [? Hd]. congruence.
Qed.

Lemma Inv_emit id node level st :
  Inv nodeMap st → id ∉ visited st → nodeMap !! id = Some node →
  Inv nodeMap (emit node level (markVisited id st)).
Proof.
  intros [Hk Hn He] Hfresh Hsome.
  pose proof (nodeMap_keyed _ _ Hsome) as Hid.
  split; simpl.
  - intros e Hin. apply elem_of_app in Hin as [Hin|Hin].
    + destruct (Hk e Hin). split; [done|set_solver].
    + apply list_elem_of_singleton in Hin as ->. unfold entryId. simpl.
      rewrite Hid. split; [done|set_solver].
  - rewrite map_app. simpl. apply NoDup_app. split; [done|]. split.
    + intros x Hx Hx'. apply list_elem_of_singleton in Hx' as ->.
      apply list_elem_of_fmap in Hx as [e [He1 He2]].
      destruct (Hk e He2) as [_ Hv]. unfold entryId in He1 at 1. simpl in He1.
      rewrite Hid in He1. congruence.
    + apply NoDup_singleton.
  - intros id' Hv Hd. rewrite map_app. apply elem_of_app.
    apply elem_of_union in Hv as [Hv|Hv].
    + apply elem_of_singleton in Hv as ->. right. unfold entryId. simpl.
      rewrite Hid. by apply list_elem_of_singleton.
    + left. by apply He.
Qed.

Lemma pending_emit id node level st :
  id ∉ visited st → nodeMap !! id = Some node →
  pending nodeMap (emit node level (markVisited id st)) < pending nodeMap st.
Proof.
  intros Hfresh Hsome. unfold pending. simpl.
  apply subset_size. apply elem_of_dom_2 in Hsome. set_solver.
Qed.

(** One call of the closure with enough budget: it returns, keeps the
    invariant, never forgets a visited id and leaves its argument visited. *)
Lemma addNodeToMarkdown_spec fuel : ∀ nodeId level st,
  Inv nodeMap st → pending nodeMap st < fuel →
  ∃ st', addNodeToMarkdown nodeMap connectionMap fuel nodeId level st = Some st' ∧
         Inv nodeMap st' ∧ visited st ⊆ visited st' ∧ nodeId ∈ visited st'.
Proof.
  induction fuel as [|fuel IH]; intros nodeId level st HI Hfuel; [lia|].
  simpl. case_bool_decide as Hvis.
  { exists st. done. }
  destruct (nodeMap !! nodeId) as [node|] eqn:Hlook.
  - pose proof (Inv_emit _ _ level _ HI Hvis Hlook) as HI2.
    pose proof (pending_emit _ _ level _ Hvis Hlook) as Hlt.
    set (st2 := emit node level (markVisited nodeId st)) in *.
    destruct (forEachM_visits
                (λ s, Inv nodeMap s ∧ visited st2 ⊆ visited s) id
                (λ childId, addNodeToMarkdown nodeMap connectionMap fuel childId (S level))
                (default [] (connectionMap !! nodeId)) st2)
      as (st' & Hrun & [HI' Hsub'] & _ & _).
    + intros childId s [HIs Hsubs].
      destruct (IH childId (S level) s HIs) as (s' & Hs' & HIs' & Hsubs' & Hin').
      { pose proof (pending_mono _ _ Hsubs). lia. }
      exists s'. split; [done|]. split; [|done]. split; [done|set_solver].
    + done.
    + exists st'. split; [done|]. split; [done|].
      subst st2. simpl in Hsub'. split; set_solver.
  - exists (markVisited nodeId st). split; [done|].
    split; [by apply Inv_unknown|]. simpl. split; set_solver.
Qed.

Lemma addNodeToMarkdown_fuel_mono fuel : ∀ fuel' nodeId level st st',
  fuel ≤ fuel' →
  addNodeToMarkdown nodeMap connectionMap fuel nodeId level st = Some st' →
  addNodeToMarkdown nodeMap connectionMap fuel' nodeId level st = Some st'.
Proof.
  induction fuel as [|fuel IH]; intros fuel' nodeId level st st' Hle H; [done|].
  destruct fuel' as [|fuel']; [lia|]. simpl in *.
  case_bool_decide; [done|].
  destruct (nodeMap !! nodeId); [|done].
  eapply forEachM_ext_some; [|exact H].
  intros a s s'. apply IH. lia.
Qed.

End TraversalFacts.

Lemma buildNodeMap_keyed nodes id n :
  buildNodeMap nodes !! id = Some n → node_id n = id.
Proof. intros H. by apply buildNodeMap_lookup in H as [_ ?]. Qed.

Lemma pending_bound nodes st :
  pending (buildNodeMap nodes) st < S (length nodes).
Proof.
  unfold pending. rewrite buildNodeMap_dom.
  pose proof (size_list_to_set_le (map node_id nodes)) as Hle.
  rewrite length_map in Hle.
  assert (size ((list_to_set (map node_id nodes) : gset string) ∖ visited st)
          ≤ size (list_to_set (map node_id nodes) : gset string))
    by (apply subseteq_size; set_solver).
  lia.
Qed.

(** The whole "Nodes" section: both loops return, and the final state has
    every node id visited. *)
Lemma linearize_run nodes connections :
  nodes ≠ [] →
  ∃ st, linearize nodes connections = Some (entries st) ∧
        Inv (buildNodeMap nodes) st ∧
        ∀ n, n ∈ nodes → node_id n ∈ visited st.
Proof.
  intros Hne. unfold linearize, linearizeFuel.
  destruct nodes as [|n0 nodes0] eqn:Hnodes; [done|]. rewrite <- Hnodes in *.
  replace (length nodes =? 0)%nat with false
    by (subst nodes; reflexivity).
  set (nodeMap := buildNodeMap nodes).
  set (connectionMap := buildConnectionMap connections).
  assert (Hkeyed : ∀ id n, nodeMap !! id = Some n → node_id n = id)
    by apply buildNodeMap_keyed.
  destruct (forEachM_visits (Inv nodeMap) node_id
              (λ node, addNodeToMarkdown nodeMap connectionMap (S (length nodes)) (node_id node) 0)
              (rootNodes nodes connections) initState)
    as (st1 & Hrun1 & HI1 & _ & _).
  { intros a s HIs.
    apply (addNodeToMarkdown_spec nodeMap connectionMap Hkeyed); [done|].
    apply pending_bound. }
  { apply Inv_init. }
  unfold visitRoots. rewrite Hrun1.
  destruct (forEachM_visits (Inv nodeMap) node_id
              (λ node st',
                 if bool_decide (node_id node ∈ visited st') then Some st'
                 else addNodeToMarkdown nodeMap connectionMap (S (length nodes)) (node_id node) 0 st')
              nodes st1)
    as (st2 & Hrun2 & HI2 & _ & Hall).
  { intros a s HIs. case_bool_decide as Hv.
    - exists s. done.
    - apply (addNodeToMarkdown_spec nodeMap connectionMap Hkeyed); [done|].
      apply pending_bound. }
  { done. }
  unfold visitRemaining. rewrite Hrun2.
  exists st2. done.
Qed.

Lemma linearize_covers (nodes : list Node) (connections : list Connection) :
  ∃ out, linearize nodes connections = Some out ∧
         NoDup (map entryId out) ∧
         (∀ id, id ∈ map entryId out ↔ id ∈ map node_id nodes) ∧
         (∀ e, e ∈ out → fst e ∈ nodes).
Proof.
  destruct (decide (nodes = [])) as [->|Hne].
  { exists []. split; [done|]. split; [constructor|]. split; [done|].
    intros e He. by apply elem_of_nil in He. }
  destruct (linearize_run nodes connections Hne) as (st & Hrun & [Hk Hn He] & Hall).
  exists (entries st). split; [done|]. split; [done|]. split.
  - intros id. split.
    + intros Hin. apply list_elem_of_fmap in Hin as [e [-> Hin]].
      destruct (Hk e Hin) as [Hlook _].
      apply buildNodeMap_lookup in Hlook as [Hin' Hid].
      apply list_elem_of_fmap. exists (fst e). done.
    + intros Hin. apply list_elem_of_fmap in Hin as [n [-> Hin]].
      apply He; [by apply Hall|].
      rewrite buildNodeMap_dom. apply elem_of_list_to_set.
      apply list_elem_of_fmap. by exists n.
  - intros e Hin. destruct (Hk e Hin) as [Hlook _].
    by apply buildNodeMap_lookup in Hlook as [? _].
Qed.

Lemma linearize_permutation (nodes : list Node) (connections : list Connection) :
  NoDup (map node_id nodes) →
  ∃ out, linearize nodes connections = Some out ∧
         map fst out ≡ₚ nodes ∧
         length out = length nodes.
Proof.
  intros Hnd.
  destruct (decide (nodes = [])) as [->|Hne].
  { exists []. done. }
  destruct (linearize_run nodes connections Hne) as (st & Hrun & [Hk Hn He] & Hall).
  exists (entries st). split; [done|].
  assert (Hperm : map fst (entries st) ≡ₚ nodes).
  { apply NoDup_Permutation.
    - apply (NoDup_fmap_1 node_id). by rewrite <- list_fmap_compose.
    - by apply (NoDup_fmap_1 node_id).
    - intros n. split.
      + intros Hin. apply list_elem_of_fmap in Hin as [e [-> Hin]].
        destruct (Hk e Hin) as [Hlook _].
        by apply buildNodeMap_lookup in Hlook as [? _].
      + intros Hin.
        assert (Hid : node_id n ∈ map entryId (entries st)).
        { apply He; [by apply Hall|].
          rewrite buildNodeMap_dom. apply elem_of_list_to_set.
          apply list_elem_of_fmap. by exists n. }
        apply list_elem_of_fmap in Hid as [e [Heq Hin']].
        destruct (Hk e Hin') as [Hlook _].
        rewrite <- Heq in Hlook.
        rewrite (buildNodeMap_NoDup nodes n Hnd Hin) in Hlook.
        injection Hlook as ->.
        apply list_elem_of_fmap. by exists e. }
  split; [done|].
  apply Permutation_length in Hperm. by rewrite length_map in Hperm.
Qed.

Section Steps.
Variable nodeMap : gmap string Node.
Variable connectionMap : gmap string (list string).

Lemma addNode_seen fuel nodeId level st :
  nodeId ∈ visited st →
  addNodeToMarkdown nodeMap connectionMap (S fuel) nodeId level st = Some st.
Proof. intros H. simpl. by rewrite bool_decide_eq_true_2. Qed.

Lemma addNode_fresh fuel nodeId level st node children :
  nodeId ∉ visited st → nodeMap !! nodeId = Some node →
  connectionMap !! nodeId = children →
  addNodeToMarkdown nodeMap connectionMap (S fuel) nodeId level st
  = forEachM (λ childId, addNodeToMarkdown nodeMap connectionMap fuel childId (S level))
      (default [] children) (emit node level (markVisited nodeId st)).
Proof. intros H1 H2 H3. simpl. rewrite bool_decide_eq_false_2 by done. by rewrite H2, H3. Qed.

Lemma visitRemaining_all_seen fuel nodes st :
  (∀ n, n ∈ nodes → node_id n ∈ visited st) →
  visitRemaining nodeMap connectionMap fuel nodes st = Some st.
Proof.
  unfold visitRemaining. induction nodes as [|n nodes IH]; simpl; intros H; [done|].
  rewrite bool_decide_eq_true_2 by (apply H; by left).
  apply IH. intros m Hm. apply H. by right.
Qed.
End Steps.

Ltac dfs_step :=
  cbn [forEachM default from_option id];
  first
    [ rewrite addNode_seen by (simpl; set_solver)
    | erewrite addNode_fresh;
        [ | simpl; set_solver | first [eassumption | unfold buildNodeMap; simpl; by simplify_map_eq]
          | unfold buildConnectionMap, addConnection; simpl; by simplify_map_eq ] ];
  cbn [forEachM default from_option id].

Lemma star_roots (a b c : Node) (c1 c2 : Connection) (nodes : list Node) :
  NoDup [node_id a; node_id b; node_id c] →
  nodes ≡ₚ [a; b; c] →
  sourceNodeId c1 = node_id a → targetNodeId c1 = node_id b →
  sourceNodeId c2 = node_id a → targetNodeId c2 = node_id c →
  rootNodes nodes [c1; c2] = [a].
Proof.
  intros Hnd Hperm Hs1 Ht1 Hs2 Ht2.
  apply NoDup_cons in Hnd as [Hna Hnd]. apply NoDup_cons in Hnd as [Hnb _].
  apply not_elem_of_cons in Hna as [Hab Hna]. apply not_elem_of_cons in Hna as [Hac _].
  apply not_elem_of_cons in Hnb as [Hbc _].
  apply Permutation_singleton_r. unfold rootNodes. rewrite Hperm.
  unfold hasIncoming. simpl. rewrite Ht1, Ht2.
  rewrite filter_cons_True by set_solver.
  rewrite filter_cons_False by set_solver.
  rewrite filter_cons_False by set_solver. done.
Qed.

Lemma star_outline (a b c : Node) (c1 c2 : Connection) (nodes : list Node) :
  NoDup [node_id a; node_id b; node_id c] →
  nodes ≡ₚ [a; b; c] →
  sourceNodeId c1 = node_id a → targetNodeId c1 = node_id b →
  sourceNodeId c2 = node_id a → targetNodeId c2 = node_id c →
  linearize nodes [c1; c2] = Some [(a, 0); (b, 1); (c, 1)].
Proof.
  intros Hnd Hperm Hs1 Ht1 Hs2 Ht2.
  pose proof (star_roots a b c c1 c2 nodes Hnd Hperm Hs1 Ht1 Hs2 Ht2) as Hroots.
  destruct c1 as [i1 m1 s1 t1], c2 as [i2 m2 s2 t2].
  simpl in Hs1, Ht1, Hs2, Ht2. subst s1 t1 s2 t2.
  assert (Hnd' : NoDup (map node_id nodes)).
  { change (map node_id nodes) with (node_id <$> nodes). by rewrite Hperm. }
  assert (Ha : buildNodeMap nodes !! node_id a = Some a).
  { apply buildNodeMap_NoDup; [done|]. rewrite Hperm. set_solver. }
  assert (Hb : buildNodeMap nodes !! node_id b = Some b).
  { apply buildNodeMap_NoDup; [done|]. rewrite Hperm. set_solver. }
  assert (Hc : buildNodeMap nodes !! node_id c = Some c).
  { apply buildNodeMap_NoDup; [done|]. rewrite Hperm. set_solver. }
  apply NoDup_cons in Hnd as [Hna Hnd]. apply NoDup_cons in Hnd as [Hnb _].
  apply not_elem_of_cons in Hna as [Hab Hna]. apply not_elem_of_cons in Hna as [Hac _].
  apply not_elem_of_cons in Hnb as [Hbc _].
  unfold linearize, linearizeFuel.
  rewrite (Permutation_length Hperm). simpl length. simpl Nat.eqb. cbv iota.
  rewrite Hroots. unfold visitRoots. cbn [forEachM].
  match goal with |- context [addNodeToMarkdown ?nm ?cm ?n (node_id a) 0 initState] =>
    eassert (Hrun : addNodeToMarkdown nm cm n (node_id a) 0 initState = Some _) end.
  { do 3 dfs_step. reflexivity. }
  rewrite Hrun. rewrite visitRemaining_all_seen; [reflexivity|].
  intros n Hn. rewrite Hperm in Hn. simpl. set_solver.
Qed.

Lemma cycle_outline (a b c : Node) (c1 c2 c3 : Connection) :
  NoDup [node_id a; node_id b; node_id c] →
  sourceNodeId c1 = node_id a → targetNodeId c1 = node_id b →
  sourceNodeId c2 = node_id b → targetNodeId c2 = node_id c →
  sourceNodeId c3 = node_id c → targetNodeId c3 = node_id a →
  linearize [a; b; c] [c1; c2; c3] = Some [(a, 0); (b, 1); (c, 2)].
Proof.
  intros Hnd Hs1 Ht1 Hs2 Ht2 Hs3 Ht3.
  destruct c1 as [i1 m1 s1 t1], c2 as [i2 m2 s2 t2], c3 as [i3 m3 s3 t3].
  simpl in Hs1, Ht1, Hs2, Ht2, Hs3, Ht3. subst s1 t1 s2 t2 s3 t3.
  apply NoDup_cons in Hnd as [Ha Hnd]. apply NoDup_cons in Hnd as [Hb _].
  apply not_elem_of_cons in Ha as [Hab Ha]. apply not_elem_of_cons in Ha as [Hac _].
  apply not_elem_of_cons in Hb as [Hbc _].
  unfold linearize, linearizeFuel. simpl length. simpl Nat.eqb. cbv iota.
  match goal with |- context [rootNodes ?ns ?cs] =>
    assert (Hroots : rootNodes ns cs = []) end.
  { unfold rootNodes, hasIncoming. simpl.
    rewrite !filter_cons_False by set_solver. done. }
  rewrite Hroots. unfold visitRoots, visitRemaining. cbn [forEachM].
  rewrite bool_decide_eq_false_2 by (simpl; set_solver).
  match goal with |- context [addNodeToMarkdown ?nm ?cm ?n (node_id a) 0 initState] =>
    eassert (Hrun : addNodeToMarkdown nm cm n (node_id a) 0 initState = Some _) end.
  { do 4 dfs_step. reflexivity. }
  rewrite Hrun. cbv iota beta.
  rewrite !bool_decide_eq_true_2 by (simpl; set_solver).
  reflexivity.
Qed.

(** A larger budget than the one [linearize] takes gives the same outline. *)
Lemma linearizeFuel_stable nodes connections fuel :
  S (length nodes) ≤ fuel →
  linearizeFuel fuel nodes connections = linearize nodes connections.
Proof.
  intros Hle.
  destruct (linearize_covers nodes connections) as (out & Hout & _).
  rewrite Hout. unfold linearize, linearizeFuel in *.
  destruct (length nodes =? 0)%nat; [done|].
  unfold visitRoots, visitRemaining in *.
  destruct (forEachM _ (rootNodes nodes connections) initState) as [st1|] eqn:H1;
    [|done].
  erewrite forEachM_ext_some; [| |exact H1].
  2:{ intros a s s'. by apply addNodeToMarkdown_fuel_mono. }
  destruct (forEachM _ nodes st1) as [st2|] eqn:H2; [|done].
  erewrite forEachM_ext_some; [exact Hout| |exact H2].
  intros a s s'. cbv beta. case_bool_decide; [done|].
  by apply addNodeToMarkdown_fuel_mono.
Qed.

(** C1.  For a list of nodes with pairwise distinct ids and any list of
    connections (cyclic, disconnected, multi-rooted, or naming ids that are
    not nodes), the outline is produced, its nodes are a permutation of the
    node list, so each node is emitted exactly once, and it has as many lines
    as there are nodes.  On the cycle a -> b, b -> c, c -> a over the nodes
    [a; b; c] the outline is a at level 0, b at level 1, c at level 2: the
    edge from c back to a adds nothing. *)
Theorem linearize_emits_each_node_once
    (nodes : list Node) (connections : list Connection) :
  NoDup (map node_id nodes) →
  (∃ out, linearize nodes connections = Some out ∧
          map fst out ≡ₚ nodes ∧
          length out = length nodes) ∧
  (∀ a b c c1 c2 c3,
     nodes = [a; b; c] → connections = [c1; c2; c3] →
     sourceNodeId c1 = node_id a → targetNodeId c1 = node_id b →
     sourceNodeId c2 = node_id b → targetNodeId c2 = node_id c →
     sourceNodeId c3 = node_id c → targetNodeId c3 = node_id a →
     linearize nodes connections = Some [(a, 0); (b, 1); (c, 2)]).
Proof.
  intros Hnd. split.
  - by apply linearize_permutation.
  - intros a b c c1 c2 c3 -> ->. by apply cycle_outline.
Qed.

Lemma linearize_emits_each_node_once_witness :
  NoDup (map node_id Examples.cycleNodes) ∧
  (∃ out, linearize Examples.cycleNodes Examples.cycleConnections = Some out ∧
          map fst out ≡ₚ Examples.cycleNodes ∧
          length out = length Examples.cycleNodes) ∧
  linearize Examples.cycleNodes Examples.cycleConnections
  = Some [(Examples.nodeA, 0); (Examples.nodeB, 1); (Examples.nodeC, 2)].
Proof.
  assert (H : NoDup (map node_id Examples.cycleNodes)) by compute_done.
  destruct (linearize_emits_each_node_once
              Examples.cycleNodes Examples.cycleConnections H) as [Hall Hcycle].
  split; [exact H|]. split; [exact Hall|].
  exact (Hcycle Examples.nodeA Examples.nodeB Examples.nodeC
           (Examples.mkConnection "c1" "A" "B")
           (Examples.mkConnection "c2" "B" "C")
           (Examples.mkConnection "c3" "C" "A")
           eq_refl eq_refl eq_refl eq_refl eq_refl eq_refl eq_refl eq_refl).
Defined.

(** C9.  With the three nodes a, b, c listed in any order and the
    connections a -> b, a -> c given in that order, the outline is a at
    level 0, then b at level 1, then c at level 1. *)
Theorem linearize_children_in_connection_order
    (a b c : Node) (c1 c2 : Connection) (nodes : list Node) :
  NoDup [node_id a; node_id b; node_id c] →
  nodes ≡ₚ [a; b; c] →
  sourceNodeId c1 = node_id a → targetNodeId c1 = node_id b →
  sourceNodeId c2 = node_id a → targetNodeId c2 = node_id c →
  rootNodes nodes [c1; c2] = [a] ∧
  linearize nodes [c1; c2] = Some [(a, 0); (b, 1); (c, 1)].
Proof.
  intros Hnd Hperm Hs1 Ht1 Hs2 Ht2. split.
  - by apply (star_roots a b c).
  - by apply star_outline.
Qed.

Lemma linearize_children_in_connection_order_witness :
  rootNodes [Examples.nodeC; Examples.nodeA; Examples.nodeB] Examples.starConnections
    = [Examples.nodeA] ∧
  linearize [Examples.nodeC; Examples.nodeA; Examples.nodeB] Examples.starConnections
    = Some [(Examples.nodeA, 0); (Examples.nodeB, 1); (Examples.nodeC, 1)].
Proof.
  apply (linearize_children_in_connection_order
           Examples.nodeA Examples.nodeB Examples.nodeC
           (Examples.mkConnection "c1" "A" "B") (Examples.mkConnection "c2" "A" "C")
           [Examples.nodeC; Examples.nodeA; Examples.nodeB]).
  - compute_done.
  - apply (Permutation_cons_app [Examples.nodeA; Examples.nodeB] []
             Examples.nodeC (Permutation_refl _)).
  - reflexivity.
  - reflexivity.
  - reflexivity.
  - reflexivity.
Defined.

End OutlineFacts.

(** * Facts about the viewport *)

Section ViewportFacts.
Import MindMapCanvas.

Lemma toScreen_unfold st p :
  toScreen st p = {| px := px p * zoomLevel st + px (panOffset st);
                     py := py p * zoomLevel st + py (panOffset st) |}.
Proof. reflexivity. Qed.

(** [handleNodeMove] sends the point it is given, taken through
    [toLogical]. *)
Lemma handleNodeMove_toLogical nodeId x y st :
  handleNodeMove nodeId x y st
  = mutate (PutNodePosition nodeId
              (px (toLogical st {| px := x; py := y |}))
              (py (toLogical st {| px := x; py := y |}))) st.
Proof. reflexivity. Qed.

(** C2.  With the zoom within [0.1, 3], taking a logical point to the screen
    through the container transform (p * zoom + panOffset) and back through
    the conversion of [handleNodeMove] ((q - panOffset) / zoom) gives the
    point back, in exact arithmetic. *)
Theorem toLogical_toScreen (st : State) (p : Point) :
  inZoomRange (zoomLevel st) →
  px (toLogical st (toScreen st p)) == px p ∧
  py (toLogical st (toScreen st p)) == py p.
Proof.
  intros [Hlo Hhi]. rewrite toScreen_unfold. unfold toLogical. simpl.
  split; field; lra.
Qed.

Lemma toLogical_toScreen_witness :
  inZoomRange (zoomLevel Examples.pannedCanvas) ∧
  px (toLogical Examples.pannedCanvas
        (toScreen Examples.pannedCanvas {| px := 7; py := -3 |})) == 7 ∧
  py (toLogical Examples.pannedCanvas
        (toScreen Examples.pannedCanvas {| px := 7; py := -3 |})) == -3.
Proof.
  assert (H : inZoomRange (zoomLevel Examples.pannedCanvas))
    by (split; vm_compute; discriminate).
  exact (conj H (toLogical_toScreen Examples.pannedCanvas {| px := 7; py := -3 |} H)).
Defined.

(** Zoom *)

Lemma wheelZoom_in_range (z delta : Q) : inZoomRange (wheelZoom z delta).
Proof.
  unfold inZoomRange, wheelZoom. split.
  - apply Q.le_max_l.
  - apply Q.max_lub; [lra|]. apply Q.le_min_l.
Qed.

Lemma handleZoomIn_in_range st :
  inZoomRange (zoomLevel st) → inZoomRange (zoomLevel (handleZoomIn st)).
Proof.
  intros [Hlo Hhi]. unfold inZoomRange, handleZoomIn. simpl. split.
  - apply Q.min_glb; lra.
  - apply Q.le_min_r.
Qed.

Lemma handleZoomOut_in_range st :
  inZoomRange (zoomLevel st) → inZoomRange (zoomLevel (handleZoomOut st)).
Proof.
  intros [Hlo Hhi]. unfold inZoomRange, handleZoomOut. simpl. split.
  - apply Q.le_max_r.
  - apply Q.max_lub; [|lra].
    apply Qle_shift_div_r; lra.
Qed.

Lemma handlePanMove_zoom e st : zoomLevel (handlePanMove e st) = zoomLevel st.
Proof.
  unfold handlePanMove.
  destruct (isPanning st), (isTouch (pointerType e)),
    (Qgt_bool (moveDistance e st) 10); reflexivity.
Qed.

Lemma handleNodeClick_zoom m id b st :
  zoomLevel (handleNodeClick m id b st) = zoomLevel st.
Proof.
  unfold handleNodeClick.
  destruct b, m; try reflexivity.
  destruct (connectionStartNode st); [|reflexivity].
  destruct (_ =? _)%string; reflexivity.
Qed.

Lemma callbacks_zoom m node cbs st :
  zoomLevel (Session.callbacks m node cbs st) = zoomLevel st.
Proof.
  revert st. induction cbs as [|cb cbs IH]; intros st; [reflexivity|].
  simpl. rewrite IH. destruct cb; simpl; [apply handleNodeClick_zoom|reflexivity].
Qed.

Lemma step_in_range m node sys ev :
  inZoomRange (zoomLevel (Session.canvas sys)) →
  inZoomRange (zoomLevel (Session.canvas (Session.step m node sys ev))).
Proof.
  intros H. destruct ev; simpl.
  - by rewrite callbacks_zoom.
  - unfold handlePanStart.
    destruct (_ || _); [done|]. by destruct (isTouch _).
  - unfold handleCanvasClick. by destruct targetIsCurrentTarget.
  - apply wheelZoom_in_range.
  - by apply handleZoomIn_in_range.
  - by apply handleZoomOut_in_range.
  - unfold handleAddNode. destruct m; [|done]. destruct rect as [[??]|]; done.
  - done.
  - destruct (NodeComponent.dragListenersAttached _), (panListenersAttached _);
      simpl; rewrite ?handlePanMove_zoom, ?callbacks_zoom; done.
  - destruct (NodeComponent.dragListenersAttached _), (panListenersAttached _);
      simpl; rewrite ?callbacks_zoom; done.
Qed.

(** C10.  The wheel expression lands in [0.1, 3] for any zoom and any
    factor; and from a zoom within [0.1, 3], every sequence of events on the
    canvas, wheel ticks of either sign and the zoom-in and zoom-out controls
    among them, leaves the zoom within [0.1, 3]. *)
Theorem zoom_stays_in_range
    (m : option MapWithNodes) (node : Node) (sys : Session.System)
    (evs : list Session.DomEvent) :
  inZoomRange (zoomLevel (Session.canvas sys)) →
  inZoomRange (zoomLevel (Session.canvas (Session.run m node sys evs))) ∧
  (∀ deltaY, inZoomRange (zoomLevel (handleWheel deltaY (Session.canvas sys)))) ∧
  inZoomRange (zoomLevel (handleZoomIn (Session.canvas sys))) ∧
  inZoomRange (zoomLevel (handleZoomOut (Session.canvas sys))) ∧
  (∀ z factor, inZoomRange (wheelZoom z factor)).
Proof.
  intros H. split; [|split; [|split; [|split]]].
  - revert sys H. unfold Session.run.
    induction evs as [|ev evs IH]; intros sys H; [done|].
    simpl. apply IH. by apply step_in_range.
  - intros deltaY. apply wheelZoom_in_range.
  - by apply handleZoomIn_in_range.
  - by apply handleZoomOut_in_range.
  - apply wheelZoom_in_range.
Qed.

Lemma zoom_stays_in_range_witness :
  inZoomRange (zoomLevel (Session.canvas Session.idle)) ∧
  inZoomRange (zoomLevel (Session.canvas
    (Session.run None Examples.nodeA Session.idle
       [Session.ToolbarZoomIn; Session.ToolbarZoomIn; Session.ToolbarZoomIn;
        Session.ToolbarZoomIn; Session.ToolbarZoomIn; Session.ToolbarZoomIn;
        Session.ToolbarZoomIn; Session.CanvasWheel (-100);
        Session.CanvasWheel 100; Session.ToolbarZoomOut]))).
Proof.
  assert (H : inZoomRange (zoomLevel (Session.canvas Session.idle)))
    by (split; vm_compute; discriminate).
  exact (conj H (proj1 (zoom_stays_in_range None Examples.nodeA Session.idle _ H))).
Defined.

(** Default placement *)

(** Three more nodes in the map move the default slot one row down (120)
    and keep its column. *)
Lemma gridOffset_next_row (n : nat) :
  inject_Z (Z.of_nat (n + 3) mod 3) * 160 - 160
    == inject_Z (Z.of_nat n mod 3) * 160 - 160 ∧
  inject_Z (Z.of_nat (n + 3) / 3) * 120 - 60
    == (inject_Z (Z.of_nat n / 3) * 120 - 60) + 120.
Proof.
  replace (Z.of_nat (n + 3)) with (Z.of_nat n + 1 * 3)%Z by lia.
  rewrite Z.mod_add, Z.div_add by lia. rewrite inject_Z_plus.
  change (inject_Z 1) with 1. split; lra.
Qed.

(** C4.  With a map of [n] nodes and a mounted canvas of size width x
    height, the add-node button sends exactly one create request.  Its
    position is the logical viewport centre, shifted by half the node size
    (60, 30) so that the node is centred there, plus the grid offset
    ((n mod 3) * 160 - 160, floor(n / 3) * 120 - 60), each axis then raised
    to at least 20.  So x >= 20 and y >= 20, and wherever an axis is not
    raised the node's centre is the viewport centre plus the grid offset. *)
Theorem handleAddNode_placement
    (m : MapWithNodes) (width height : Q) (st : State) :
  let n := Z.of_nat (length (map_nodes m)) in
  let centre := toLogical st {| px := width / 2; py := height / 2 |} in
  let dx := inject_Z (n mod 3) * 160 - 160 in
  let dy := inject_Z (n / 3) * 120 - 60 in
  ∃ created,
    requests (handleAddNode (Some m) (Some (width, height)) st)
      = requests st ++ [PostNode created] ∧
    ins_x created = Qmax 20 (px centre - 60 + dx) ∧
    ins_y created = Qmax 20 (py centre - 30 + dy) ∧
    ins_width created = 120 ∧ ins_height created = 60 ∧
    20 <= ins_x created ∧ 20 <= ins_y created ∧
    (20 <= px centre - 60 + dx →
       ins_x created + ins_width created / 2 == px centre + dx) ∧
    (20 <= py centre - 30 + dy →
       ins_y created + ins_height created / 2 == py centre + dy).
Proof.
  intros n centre dx dy. eexists. split; [reflexivity|].
  cbn [ins_x ins_y ins_width ins_height].
  split; [reflexivity|]. split; [reflexivity|].
  split; [reflexivity|]. split; [reflexivity|].
  split; [apply Q.le_max_l|]. split; [apply Q.le_max_l|].
  split; intros H; apply Q.max_r in H.
  - change (Qmax 20 (px centre - 60 + dx) + 120 / 2 == px centre + dx).
    rewrite H. field.
  - change (Qmax 20 (py centre - 30 + dy) + 60 / 2 == py centre + dy).
    rewrite H. field.
Qed.

Lemma handleAddNode_placement_witness :
  ∃ created,
    requests (handleAddNode (Some Examples.starMap) (Some (800, 600)) initial)
      = [PostNode created] ∧
    ins_x created == 180 ∧ ins_y created == 330 ∧
    20 <= ins_x created ∧ 20 <= ins_y created.
Proof.
  destruct (handleAddNode_placement Examples.starMap 800 600 initial)
    as (created & Hreq & Hx & Hy & _ & _ & Hx20 & Hy20 & _ & _).
  exists created. split; [exact Hreq|].
  split; [rewrite Hx; reflexivity|]. split; [rewrite Hy; reflexivity|].
  split; [exact Hx20|exact Hy20].
Defined.

End ViewportFacts.

(** * Facts about pointer gestures *)

Section GestureFacts.
Import MindMapCanvas.
Variable map : option MapWithNodes.
Variable node : Node.

Abbreviation step := (Session.step map node).
Abbreviation run := (Session.run map node).

Lemma run_app sys evs1 evs2 : run sys (evs1 ++ evs2) = run (run sys evs1) evs2.
Proof. unfold Session.run. apply foldl_app. Qed.

Lemma handlePanMove_requests e st : requests (handlePanMove e st) = requests st.
Proof.
  unfold handlePanMove.
  destruct (isPanning st), (isTouch (pointerType e)),
    (Qgt_bool (moveDistance e st) 10); reflexivity.
Qed.

(** ** Node drag *)

(** While the component is dragging, a document move rewrites the inline
    position and nothing else of the component, and sends nothing. *)
Lemma drag_move sys e :
  NodeComponent.isDragging (Session.component sys) = true →
  let sys' := step sys (Session.DocumentPointerMove e) in
  NodeComponent.isDragging (Session.component sys') = true ∧
  NodeComponent.dragStart (Session.component sys')
    = NodeComponent.dragStart (Session.component sys) ∧
  NodeComponent.styleOverride (Session.component sys')
    = Some {| px := clientX e - px (NodeComponent.dragStart (Session.component sys));
              py := clientY e - py (NodeComponent.dragStart (Session.component sys)) |} ∧
  requests (Session.canvas sys') = requests (Session.canvas sys).
Proof.
  intros Hd. simpl. unfold NodeComponent.dragListenersAttached.
  rewrite Hd. unfold NodeComponent.handlePointerMove. rewrite Hd. simpl.
  split; [done|]. split; [done|]. split; [done|].
  destruct (panListenersAttached _); [apply handlePanMove_requests|done].
Qed.

Lemma drag_moves moves : ∀ sys,
  NodeComponent.isDragging (Session.component sys) = true →
  let sys' := run sys (List.map Session.DocumentPointerMove moves) in
  NodeComponent.isDragging (Session.component sys') = true ∧
  NodeComponent.dragStart (Session.component sys')
    = NodeComponent.dragStart (Session.component sys) ∧
  requests (Session.canvas sys') = requests (Session.canvas sys).
Proof.
  induction moves as [|e moves IH]; intros sys Hd; [done|].
  destruct (drag_move sys e Hd) as (Hd1 & Hs1 & _ & Hr1).
  destruct (IH _ Hd1) as (Hd2 & Hs2 & Hr2).
  cbv zeta.
  change (run sys (List.map Session.DocumentPointerMove (e :: moves)))
    with (run (step sys (Session.DocumentPointerMove e))
              (List.map Session.DocumentPointerMove moves)).
  split; [exact Hd2|]. split; [by rewrite Hs2|by rewrite Hr2].
Qed.

Lemma drag_down sys e0 :
  ctrlKey e0 = false → metaKey e0 = false →
  let sys' := step sys (Session.NodePointerDown e0) in
  NodeComponent.isDragging (Session.component sys') = true ∧
  NodeComponent.dragStart (Session.component sys')
    = {| px := clientX e0 - node_x node; py := clientY e0 - node_y node |} ∧
  requests (Session.canvas sys') = requests (Session.canvas sys).
Proof.
  intros Hc Hm. simpl. unfold NodeComponent.handlePointerDown.
  rewrite Hc, Hm. simpl. done.
Qed.

(** Once the component is not dragging, document moves and ups send
    nothing. *)
Lemma released_quiet evs : ∀ sys,
  NodeComponent.isDragging (Session.component sys) = false →
  Forall (λ ev, ∃ e, ev = Session.DocumentPointerMove e ∨
                     ev = Session.DocumentPointerUp e) evs →
  requests (Session.canvas (run sys evs)) = requests (Session.canvas sys).
Proof.
  induction evs as [|ev evs IH]; intros sys Hd Hall; [done|].
  apply Forall_cons in Hall as [[e [-> | ->]] Hall]; simpl.
  - rewrite IH; [| |done]; simpl;
      unfold NodeComponent.dragListenersAttached; rewrite Hd; [|done].
    destruct (panListenersAttached _); [apply handlePanMove_requests|done].
  - rewrite IH; [| |done]; simpl;
      unfold NodeComponent.dragListenersAttached; rewrite Hd; [|done].
    destruct (panListenersAttached _); done.
Qed.

(** X22.  In a drag of a node (down on the node without Ctrl or Meta, any
    moves, up): after the down and any number of the moves no request has
    been sent; a move writes only the inline position of the element; the up
    sends exactly one position update, for the position reached at the up
    (pointer minus drag start) taken through [toLogical]; and later moves and
    ups on the document send nothing more. *)
Theorem drag_commits_once
    (sys : Session.System) (e0 eUp : PointerEvent) (moves : list PointerEvent) :
  ctrlKey e0 = false → metaKey e0 = false →
  let dragStart := {| px := clientX e0 - node_x node;
                      py := clientY e0 - node_y node |} in
  let dragging := run sys (Session.NodePointerDown e0
                           :: List.map Session.DocumentPointerMove moves) in
  let final := {| px := clientX eUp - px dragStart;
                  py := clientY eUp - py dragStart |} in
  let released := run sys (Session.dragSession e0 moves eUp) in
  (∀ k, requests (Session.canvas
          (run sys (Session.NodePointerDown e0
                    :: List.map Session.DocumentPointerMove (take k moves))))
        = requests (Session.canvas sys)) ∧
  (∀ e, NodeComponent.styleOverride
          (Session.component (step dragging (Session.DocumentPointerMove e)))
        = Some {| px := clientX e - px dragStart; py := clientY e - py dragStart |}) ∧
  requests (Session.canvas released)
    = requests (Session.canvas sys)
      ++ [PutNodePosition (node_id node)
            (px (toLogical (Session.canvas dragging) final))
            (py (toLogical (Session.canvas dragging) final))] ∧
  NodeComponent.isDragging (Session.component released) = false ∧
  (∀ later,
     Forall (λ ev, ∃ e, ev = Session.DocumentPointerMove e ∨
                        ev = Session.DocumentPointerUp e) later →
     requests (Session.canvas (run released later))
       = requests (Session.canvas released)).
Proof.
  intros Hc Hm dragStart dragging final released.
  destruct (drag_down sys e0 Hc Hm) as (Hd0 & Hs0 & Hr0).
  assert (Hprefix : ∀ ms,
    let s := run sys (Session.NodePointerDown e0
                      :: List.map Session.DocumentPointerMove ms) in
    NodeComponent.isDragging (Session.component s) = true ∧
    NodeComponent.dragStart (Session.component s) = dragStart ∧
    requests (Session.canvas s) = requests (Session.canvas sys)).
  { intros ms. destruct (drag_moves ms _ Hd0) as (Hd & Hs & Hr).
    cbv zeta.
    change (run sys (Session.NodePointerDown e0
                     :: List.map Session.DocumentPointerMove ms))
      with (run (step sys (Session.NodePointerDown e0))
                (List.map Session.DocumentPointerMove ms)).
    split; [exact Hd|]. split; [by rewrite Hs|by rewrite Hr]. }
  destruct (Hprefix moves) as (Hd & Hs & Hr). fold dragging in Hd, Hs, Hr.
  assert (Hrel : released = step dragging (Session.DocumentPointerUp eUp)).
  { unfold released, Session.dragSession, dragging.
    change (Session.NodePointerDown e0
            :: List.map Session.DocumentPointerMove moves
               ++ [Session.DocumentPointerUp eUp])
      with ((Session.NodePointerDown e0
             :: List.map Session.DocumentPointerMove moves)
            ++ [Session.DocumentPointerUp eUp]).
    by rewrite run_app. }
  assert (Hup : requests (Session.canvas released)
                = requests (Session.canvas sys)
                  ++ [PutNodePosition (node_id node)
                        (px (toLogical (Session.canvas dragging) final))
                        (py (toLogical (Session.canvas dragging) final))]
                ∧ NodeComponent.isDragging (Session.component released) = false).
  { rewrite Hrel. simpl. unfold NodeComponent.dragListenersAttached.
    rewrite Hd. unfold NodeComponent.handlePointerUp. rewrite Hd, Hs. simpl.
    split; [|done].
    destruct (panListenersAttached _); simpl; by rewrite Hr. }
  destruct Hup as [Hup Hidle].
  split; [|split; [|split; [|split]]].
  - intros k. by destruct (Hprefix (take k moves)) as (_ & _ & ?).
  - intros e. destruct (drag_move dragging e Hd) as (_ & _ & Hstyle & _).
    by rewrite Hstyle, Hs.
  - exact Hup.
  - exact Hidle.
  - intros later Hlater. by apply released_quiet.
Qed.

(** ** Pan by touch *)

(** What the body of [handlePanMove] does with a touch move while not
    panning: it turns panning on exactly when the Manhattan distance from
    the stored start exceeds 10. *)
Lemma handlePanMove_threshold e st :
  isPanning st = false → pointerType e = touch →
  isPanning (handlePanMove e st) = Qgt_bool (moveDistance e st) 10.
Proof.
  intros Hp Ht. unfold handlePanMove. rewrite Hp, Ht. simpl.
  destruct (Qgt_bool _ _); simpl; [done|exact Hp].
Qed.

Lemma not_panning_move sys e :
  isPanning (Session.canvas sys) = false →
  Session.canvas (step sys (Session.DocumentPointerMove e)) = Session.canvas sys.
Proof.
  intros Hp. simpl. unfold panListenersAttached. rewrite Hp.
  destruct (NodeComponent.dragListenersAttached _); [|done].
  unfold NodeComponent.handlePointerMove.
  destruct (negb _); reflexivity.
Qed.

(** The pan listeners are on [document] only while [isPanning] already
    holds, so a touch that goes down on the canvas and then moves never
    reaches [handlePanMove]: the canvas is as the pointer-down left it. *)
Lemma touch_moves_ignored moves : ∀ sys,
  isPanning (Session.canvas sys) = false →
  Session.canvas (run sys (List.map Session.DocumentPointerMove moves))
    = Session.canvas sys.
Proof.
  induction moves as [|e moves IH]; intros sys Hp; [done|].
  change (run sys (List.map Session.DocumentPointerMove (e :: moves)))
    with (run (step sys (Session.DocumentPointerMove e))
              (List.map Session.DocumentPointerMove moves)).
  pose proof (not_panning_move sys e Hp) as Heq.
  rewrite IH; [done|]. by rewrite Heq.
Qed.

Lemma touch_pan_never_starts sys e0 moves :
  isPanning (Session.canvas sys) = false →
  pointerType e0 = touch → button e0 = 0%Z → shiftKey e0 = false →
  isPanning (Session.canvas
    (run sys (Session.CanvasPointerDown e0
              :: List.map Session.DocumentPointerMove moves))) = false.
Proof.
  intros Hp Ht Hb Hs.
  change (run sys (Session.CanvasPointerDown e0
                   :: List.map Session.DocumentPointerMove moves))
    with (run (step sys (Session.CanvasPointerDown e0))
              (List.map Session.DocumentPointerMove moves)).
  assert (Hdown : isPanning (Session.canvas (step sys (Session.CanvasPointerDown e0)))
                  = false).
  { simpl. unfold handlePanStart. rewrite Hb, Hs, Ht. simpl. exact Hp. }
  by rewrite touch_moves_ignored.
Qed.

(** ** Click on the empty canvas *)

Lemma handlePanStart_keeps e st :
  selectedNodeId (handlePanStart e st) = selectedNodeId st ∧
  connectionStartNode (handlePanStart e st) = connectionStartNode st ∧
  requests (handlePanStart e st) = requests st.
Proof.
  unfold handlePanStart.
  destruct (_ || _); [done|]. by destruct (isTouch _).
Qed.

(** The pointer-down and pointer-up of a click, with no drag of the node in
    progress, leave the selection, the pending source, the requests and the
    viewport as they are. *)
Lemma click_gesture_keeps sys eDown eUp :
  NodeComponent.isDragging (Session.component sys) = false →
  let sys1 := run sys [Session.CanvasPointerDown eDown;
                       Session.DocumentPointerUp eUp] in
  selectedNodeId (Session.canvas sys1) = selectedNodeId (Session.canvas sys) ∧
  connectionStartNode (Session.canvas sys1)
    = connectionStartNode (Session.canvas sys) ∧
  requests (Session.canvas sys1) = requests (Session.canvas sys) ∧
  panOffset (Session.canvas sys1) = panOffset (Session.canvas sys) ∧
  zoomLevel (Session.canvas sys1) = zoomLevel (Session.canvas sys).
Proof.
  intros Hd. cbv zeta. simpl.
  unfold NodeComponent.dragListenersAttached. rewrite Hd. simpl.
  unfold panListenersAttached, handlePanStart.
  destruct (_ || _); simpl; [done|].
  destruct (isTouch _); simpl; by destruct (isPanning _).
Qed.

(** The box of the nodes container depends on the viewport only. *)
Lemma containerCovers_viewport rect st st' p :
  panOffset st' = panOffset st → zoomLevel st' = zoomLevel st →
  containerCovers rect st' p = containerCovers rect st p.
Proof.
  intros Hp Hz. unfold containerCovers, toScreen, containerTransform.
  by rewrite Hp, Hz.
Qed.

(** What the click handler is called with, by where the click lands. *)
Lemma clickAt_target rect p eDown eUp sys :
  NodeComponent.isDragging (Session.component sys) = false →
  Session.clickAt map node rect p eDown eUp sys
  = step (run sys [Session.CanvasPointerDown eDown; Session.DocumentPointerUp eUp])
      (Session.CanvasClick (negb (containerCovers rect (Session.canvas sys) p))).
Proof.
  intros Hd.
  destruct (click_gesture_keeps sys eDown eUp Hd) as (_ & _ & _ & Hp & Hz).
  unfold Session.clickAt, emptySurfaceAt. cbv zeta.
  rewrite (containerCovers_viewport rect _ _ p Hp Hz).
  by destruct (containerCovers rect (Session.canvas sys) p).
Qed.


End GestureFacts.

Lemma drag_commits_once_witness :
  MindMapCanvas.requests (Session.canvas
    (Session.run (Some Examples.starMap) Examples.nodeA Session.idle Examples.dragOfA))
  = [MindMapCanvas.PutNodePosition "A"
       (px (MindMapCanvas.toLogical MindMapCanvas.initial
              {| px := 230 - (130 - 100); py := 170 - (120 - 100) |}))
       (py (MindMapCanvas.toLogical MindMapCanvas.initial
              {| px := 230 - (130 - 100); py := 170 - (120 - 100) |}))].
Proof.
  exact (proj1 (proj2 (proj2
    (drag_commits_once (Some Examples.starMap) Examples.nodeA Session.idle
       (Examples.pointerAt MindMapCanvas.mouse 130 120)
       (Examples.pointerAt MindMapCanvas.mouse 230 170)
       [Examples.pointerAt MindMapCanvas.mouse 140 125;
        Examples.pointerAt MindMapCanvas.mouse 180 150;
        Examples.pointerAt MindMapCanvas.mouse 230 170]
       eq_refl eq_refl)))).
Defined.



(** C7.  A drag of node A, stored at (100, 100), at the viewport with pan
    (40, -15) and zoom 2.5: pointer-down at (130, 120), moves, pointer-up at
    (230, 170).  During the drag the element is shown at the position
    (200, 150) of the nodes container, and that is where the last move left
    it; the one request sent at the pointer-up carries (64, 66).  That is
    neither the position shown nor the logical position of the point of
    the screen to which the pointer carried the node, (140, 120).  A press
    and release at (130, 120) without any movement sends (24, 46) for the
    node that was shown, unmoved, at (100, 100). *)
Theorem drag_commit_differs_from_shown :
  let dragged := Session.run (Some Examples.starMap) Examples.nodeA
                   Examples.pannedSystem Examples.dragOfA in
  let pressed := Session.run (Some Examples.starMap) Examples.nodeA
                   Examples.pannedSystem Examples.pressReleaseOfA in
  NodeComponent.styleOverride (Session.component dragged)
    = Some {| px := 230 - (130 - 100); py := 170 - (120 - 100) |} ∧
  (∃ x y, MindMapCanvas.requests (Session.canvas dragged)
          = [MindMapCanvas.PutNodePosition "A" x y] ∧
          x == 64 ∧ y == 66 ∧ ¬ (x == 200 ∧ y == 150) ∧ ¬ (x == 140 ∧ y == 120)) ∧
  (let onScreen := MindMapCanvas.toScreen Examples.pannedCanvas
                     {| px := node_x Examples.nodeA; py := node_y Examples.nodeA |} in
   let carried := MindMapCanvas.toLogical Examples.pannedCanvas
                    {| px := px onScreen + (230 - 130);
                       py := py onScreen + (170 - 120) |} in
   px carried == 140 ∧ py carried == 120) ∧
  (node_x Examples.nodeA == 100 ∧ node_y Examples.nodeA == 100) ∧
  NodeComponent.styleOverride (Session.component pressed) = None ∧
  (∃ x y, MindMapCanvas.requests (Session.canvas pressed)
          = [MindMapCanvas.PutNodePosition "A" x y] ∧
          x == 24 ∧ y == 46 ∧ ¬ (x == 100 ∧ y == 100)).
Proof.
  cbv zeta. split; [reflexivity|]. split; [|split; [|split; [|split]]].
  - eexists _, _. split; [reflexivity|].
    split; [reflexivity|]. split; [reflexivity|].
    split; intros [H _]; discriminate H.
  - split; reflexivity.
  - split; reflexivity.
  - reflexivity.
  - eexists _, _. split; [reflexivity|].
    split; [reflexivity|]. split; [reflexivity|].
    intros [H _]. discriminate H.
Qed.

(** C3.  A touch goes down on the empty canvas at (100, 100) and moves to
    (110, 100), 10 pixels, or to (111, 100), 11 pixels.  In both runs the
    session is not panning afterwards: no pan listener is installed after
    the pointer-down, so the move is not delivered.  The body of
    [handlePanMove], had it received the 11-pixel move, would have started
    panning; on the 10-pixel move it would not. *)
Theorem touch_pan_threshold_unreachable :
  MindMapCanvas.moveDistance Examples.touchMove10 Examples.afterTouchDown == 10 ∧
  MindMapCanvas.moveDistance Examples.touchMove11 Examples.afterTouchDown == 11 ∧
  MindMapCanvas.panListenersAttached Examples.afterTouchDown = false ∧
  MindMapCanvas.isPanning
    (Session.canvas
       (Session.run None Examples.nodeA Session.idle
          [Session.CanvasPointerDown Examples.touchDown;
           Session.DocumentPointerMove Examples.touchMove10])) = false ∧
  MindMapCanvas.isPanning
    (Session.canvas
       (Session.run None Examples.nodeA Session.idle
          [Session.CanvasPointerDown Examples.touchDown;
           Session.DocumentPointerMove Examples.touchMove11])) = false ∧
  MindMapCanvas.isPanning
    (MindMapCanvas.handlePanMove Examples.touchMove10 Examples.afterTouchDown) = false ∧
  MindMapCanvas.isPanning
    (MindMapCanvas.handlePanMove Examples.touchMove11 Examples.afterTouchDown) = true.
Proof.
  split; [vm_compute; reflexivity|]. split; [vm_compute; reflexivity|].
  split; [reflexivity|].
  split; [apply touch_pan_never_starts with (moves := [Examples.touchMove10]);
          reflexivity|].
  split; [apply touch_pan_never_starts with (moves := [Examples.touchMove11]);
          reflexivity|].
  split; [rewrite handlePanMove_threshold by reflexivity; vm_compute; reflexivity|].
  rewrite handlePanMove_threshold by reflexivity. vm_compute. reflexivity.
Qed.

(** * Facts about the DELETE routes *)

Section DeleteFacts.
Import Server.
Local Close Scope Q_scope.
Variable onDeleteCascade : bool.

Lemma filter_twice {A} (f : A → bool) (l : list A) :
  List.filter f (List.filter f l) = List.filter f l.
Proof.
  induction l as [|a l IH]; simpl; [done|].
  destruct (f a) eqn:Hf; simpl; [|done]. by rewrite Hf, IH.
Qed.

Lemma filter_none {A} (f : A → bool) (l : list A) :
  List.filter f (List.filter (λ a, negb (f a)) l) = [].
Proof.
  induction l as [|a l IH]; simpl; [done|].
  destruct (f a) eqn:Hf; simpl; [done|]. by rewrite Hf.
Qed.

(** After a delete of [id], no node row has that id: a second delete finds
    no row, reports [false] and changes nothing. *)
Lemma deleteNode_again id db :
  let db1 := snd (deleteNode onDeleteCascade id db) in
  deleteNode onDeleteCascade id db1 = (false, db1).
Proof.
  unfold deleteNode. simpl.
  rewrite (filter_none (λ n, String.eqb (node_id n) id)).
  rewrite (filter_twice (λ n, negb (String.eqb (node_id n) id))).
  simpl. rewrite andb_false_r. done.
Qed.

Lemma deleteConnection_again id db :
  let db1 := snd (deleteConnection id db) in
  deleteConnection id db1 = (false, db1).
Proof.
  unfold deleteConnection. simpl.
  rewrite (filter_none (λ c, String.eqb (conn_id c) id)).
  rewrite (filter_twice (λ c, negb (String.eqb (conn_id c) id))).
  done.
Qed.

(** C5 (amended).  For an authenticated caller, a DELETE of a node or
    connection id that was already deleted leaves the stored rows unchanged
    and is answered with status 404 and the not-found message, which the
    client does not count as success. *)
Theorem repeated_delete_is_not_found (id : string) (db : Db) :
  let afterNode := snd (routeDeleteNode onDeleteCascade true id db) in
  let afterConnection := snd (routeDeleteConnection true id db) in
  routeDeleteNode onDeleteCascade true id afterNode
    = (Json 404 "Node not found", afterNode) ∧
  routeDeleteConnection true id afterConnection
    = (Json 404 "Connection not found", afterConnection) ∧
  ok (Json 404 "Node not found") = false ∧
  ok (Json 404 "Connection not found") = false.
Proof.
  intros afterNode afterConnection.
  split; [|split; [|split; reflexivity]].
  - assert (Hafter : afterNode = snd (deleteNode onDeleteCascade id db)).
    { unfold afterNode, routeDeleteNode. cbn [negb].
      destruct (deleteNode onDeleteCascade id db) as [[] db']; reflexivity. }
    unfold routeDeleteNode. cbn [negb].
    rewrite Hafter, deleteNode_again. reflexivity.
  - assert (Hafter : afterConnection = snd (deleteConnection id db)).
    { unfold afterConnection, routeDeleteConnection. cbn [negb].
      destruct (deleteConnection id db) as [[] db']; reflexivity. }
    unfold routeDeleteConnection. cbn [negb].
    rewrite Hafter, deleteConnection_again. reflexivity.
Qed.

End DeleteFacts.

(** C5 (as stated) fails: node T is stored; the first DELETE of T answers
    204, the second answers 404 "Node not found", which is not a success
    status. *)
Lemma repeated_delete_fails :
  fst Examples.firstDelete = Server.SendStatus 204 ∧
  fst Examples.secondDelete = Server.Json 404 "Node not found" ∧
  snd Examples.secondDelete = snd Examples.firstDelete ∧
  ¬ (Server.ok (fst Examples.secondDelete) = true).
Proof.
  split; [vm_compute; reflexivity|]. split; [vm_compute; reflexivity|].
  split; [vm_compute; reflexivity|]. vm_compute. discriminate.
Qed.

(** * Connections whose endpoints are not nodes *)

(** ** Connections whose target is not a node leave the outline alone *)

Section MissingTarget.
Import ExportService.
Local Close Scope Q_scope.

Lemma findNode_is_Some nodes id :
  is_Some (findNode nodes id) ↔ id ∈ map node_id nodes.
Proof.
  unfold findNode. induction nodes as [|n nodes IH]; simpl.
  - split; [by intros [? ?]|]. intros H. by apply elem_of_nil in H.
  - destruct (String.eqb_spec (node_id n) id) as [->|Hne].
    + split; [intros _; by left|by eexists].
    + rewrite IH. split; [by right|].
      intros H. apply elem_of_cons in H as [H|H]; [congruence|done].
Qed.

Lemma targetKnown_dom nodes c :
  targetKnown nodes c = true ↔ targetNodeId c ∈ dom (buildNodeMap nodes).
Proof.
  unfold targetKnown. rewrite bool_decide_eq_true, findNode_is_Some.
  rewrite buildNodeMap_dom. by rewrite elem_of_list_to_set.
Qed.

Section Simulation.
Variable nodeMap : gmap string Node.
Variable cm cm' : gmap string (list string).
Hypothesis children_filtered : ∀ id,
  default [] (cm' !! id) = filter (λ t, t ∈ dom nodeMap) (default [] (cm !! id)).

Lemma sameOutline_unknown id st st' :
  sameOutline nodeMap st st' → id ∉ dom nodeMap →
  sameOutline nodeMap (markVisited id st) st'.
Proof.
  intros [He Hv] Hid. split; [done|]. intros id' Hd. simpl.
  rewrite <- Hv by done. set_solver.
Qed.

Lemma addNodeToMarkdown_sim fuel : ∀ nodeId level st st' s,
  sameOutline nodeMap st st' → nodeId ∈ dom nodeMap →
  addNodeToMarkdown nodeMap cm fuel nodeId level st = Some s →
  ∃ s', addNodeToMarkdown nodeMap cm' fuel nodeId level st' = Some s' ∧
        sameOutline nodeMap s s'.
Proof.
  induction fuel as [|fuel IH]; intros nodeId level st st' s Hrel Hd Hrun; [done|].
  simpl in *. destruct Hrel as [He Hv].
  case_bool_decide as Hvis.
  - injection Hrun as <-. rewrite bool_decide_eq_true_2 by (by apply Hv).
    exists st'. done.
  - rewrite bool_decide_eq_false_2 by (by rewrite <- Hv).
    destruct (nodeMap !! nodeId) as [node|] eqn:Hlook.
    2:{ apply not_elem_of_dom in Hlook. done. }
    rewrite children_filtered.
    assert (Hrel2 : sameOutline nodeMap (emit node level (markVisited nodeId st))
                      (emit node level (markVisited nodeId st'))).
    { split; simpl; [by rewrite He|]. intros id' Hd'.
      specialize (Hv id' Hd'). set_solver. }
    revert Hrun Hrel2.
    generalize (emit node level (markVisited nodeId st)).
    generalize (emit node level (markVisited nodeId st')).
    induction (default [] (cm !! nodeId)) as [|child children IHc];
      intros t' t Hrun Hrel2; simpl in Hrun.
    + injection Hrun as <-. exists t'. done.
    + destruct (addNodeToMarkdown nodeMap cm fuel child (S level) t)
        as [t1|] eqn:Hchild; [|done].
      destruct (decide (child ∈ dom nodeMap)) as [Hin|Hout].
      * rewrite filter_cons_True by done. simpl.
        destruct (IH child (S level) t t' t1 Hrel2 Hin Hchild) as (t1' & -> & Hrel1).
        by apply IHc with t1.
      * rewrite filter_cons_False by done.
        apply IHc with t1; [done|].
        destruct fuel as [|fuel']; [done|]. simpl in Hchild.
        case_bool_decide; [by injection Hchild as <-|].
        apply not_elem_of_dom in Hout. rewrite Hout in Hchild.
        injection Hchild as <-. apply sameOutline_unknown; [done|].
        by apply not_elem_of_dom.
Qed.

Lemma forEachM_sim {A}
    (f f' : A → LinState → option LinState) (l : list A) : ∀ st st' s,
  (∀ a t t' u, a ∈ l → sameOutline nodeMap t t' → f a t = Some u →
     ∃ u', f' a t' = Some u' ∧ sameOutline nodeMap u u') →
  sameOutline nodeMap st st' →
  forEachM f l st = Some s →
  ∃ s', forEachM f' l st' = Some s' ∧ sameOutline nodeMap s s'.
Proof.
  induction l as [|a l IH]; intros st st' s Hstep Hrel Hrun; simpl in *.
  - injection Hrun as <-. by exists st'.
  - destruct (f a st) as [t|] eqn:Hf; [|done].
    destruct (Hstep a st st' t) as (t' & -> & Hrel'); [by left|done|done|].
    apply IH with t; [|done|done].
    intros b u u' v Hb. apply Hstep. by right.
Qed.

End Simulation.

Lemma connectionMap_filtered (nodes : list Node) (connections : list Connection) id :
  default [] (buildConnectionMap (List.filter (targetKnown nodes) connections) !! id)
  = filter (λ t, t ∈ dom (buildNodeMap nodes))
      (default [] (buildConnectionMap connections !! id)).
Proof.
  unfold buildConnectionMap.
  assert (Hgen : ∀ m m' : gmap string (list string),
    (∀ id, default [] (m' !! id)
           = filter (λ t, t ∈ dom (buildNodeMap nodes)) (default [] (m !! id))) →
    default [] (foldl addConnection m' (List.filter (targetKnown nodes) connections) !! id)
    = filter (λ t, t ∈ dom (buildNodeMap nodes))
        (default [] (foldl addConnection m connections !! id))).
  { induction connections as [|c connections IH]; intros m m' Hm; simpl; [done|].
    destruct (targetKnown nodes c) eqn:Hk; simpl; apply IH; intros id';
      unfold addConnection.
    - apply targetKnown_dom in Hk.
      destruct (decide (sourceNodeId c = id')) as [<-|Hne].
      + rewrite !lookup_insert_eq. simpl. rewrite filter_app, Hm.
        by rewrite filter_cons_True, filter_nil by done.
      + by rewrite !lookup_insert_ne.
    - assert (Hk' : targetNodeId c ∉ dom (buildNodeMap nodes)).
      { rewrite <- targetKnown_dom. by rewrite Hk. }
      destruct (decide (sourceNodeId c = id')) as [<-|Hne].
      + rewrite lookup_insert_eq. simpl. rewrite filter_app, Hm.
        rewrite filter_cons_False, filter_nil by done. by rewrite app_nil_r.
      + by rewrite lookup_insert_ne. }
  apply Hgen. intros id'. by rewrite !lookup_empty.
Qed.

Lemma filter_iff_in {A} (P1 P2 : A → Prop)
    `{!∀ x, Decision (P1 x), !∀ x, Decision (P2 x)} (l : list A) :
  (∀ x, x ∈ l → P1 x ↔ P2 x) → filter P1 l = filter P2 l.
Proof.
  induction l as [|a l IH]; intros Hiff; [done|].
  assert (Htl : filter P1 l = filter P2 l).
  { apply IH. intros x Hx. apply Hiff. by right. }
  destruct (decide (P1 a)) as [Ha|Ha].
  - rewrite !filter_cons_True; [by rewrite Htl| |done].
    apply Hiff; [by left|done].
  - rewrite !filter_cons_False; [done| |done].
    intros Ha'. apply Ha, Hiff; [by left|done].
Qed.

Lemma rootNodes_filtered (nodes : list Node) (connections : list Connection) :
  rootNodes nodes (List.filter (targetKnown nodes) connections)
  = rootNodes nodes connections.
Proof.
  unfold rootNodes. apply filter_iff_in. intros n Hn.
  assert (Hd : node_id n ∈ dom (buildNodeMap nodes)).
  { rewrite buildNodeMap_dom, elem_of_list_to_set.
    apply list_elem_of_fmap. by exists n. }
  unfold hasIncoming. rewrite !elem_of_list_to_set.
  split; intros Hnot Hin; apply Hnot.
  - apply list_elem_of_fmap in Hin as [c [Hc Hin]].
    apply list_elem_of_fmap. exists c. split; [done|].
    apply list_elem_of_In, filter_In. split; [by apply list_elem_of_In|].
    apply targetKnown_dom. by rewrite <- Hc.
  - apply list_elem_of_fmap in Hin as [c [Hc Hin]].
    apply list_elem_of_fmap. exists c. split; [done|].
    apply list_elem_of_In, filter_In in Hin as [Hin _]. by apply list_elem_of_In.
Qed.

(** Dropping every connection whose target is not a node gives the same
    outline. *)
Lemma missing_target_ignored (nodes : list Node) (connections : list Connection) :
  linearize nodes (List.filter (targetKnown nodes) connections)
  = linearize nodes connections.
Proof.
  destruct (linearize_covers nodes connections) as (out & Hout & _).
  rewrite Hout. unfold linearize, linearizeFuel in *.
  destruct (length nodes =? 0)%nat; [done|].
  rewrite rootNodes_filtered.
  set (nodeMap := buildNodeMap nodes) in *.
  set (cm := buildConnectionMap connections) in *.
  set (cm' := buildConnectionMap (List.filter (targetKnown nodes) connections)).
  assert (Hcm : ∀ id, default [] (cm' !! id)
                      = filter (λ t, t ∈ dom nodeMap) (default [] (cm !! id)))
    by apply connectionMap_filtered.
  assert (Hdom : ∀ n, n ∈ nodes → node_id n ∈ dom nodeMap).
  { intros n Hn. unfold nodeMap. rewrite buildNodeMap_dom, elem_of_list_to_set.
    apply list_elem_of_fmap. by exists n. }
  unfold visitRoots, visitRemaining in *.
  assert (Hcall : ∀ n t t' u, n ∈ nodes → sameOutline nodeMap t t' →
    addNodeToMarkdown nodeMap cm (S (length nodes)) (node_id n) 0 t = Some u →
    ∃ u', addNodeToMarkdown nodeMap cm' (S (length nodes)) (node_id n) 0 t' = Some u' ∧
          sameOutline nodeMap u u').
  { intros n t t' u Hn Hrel Hrun.
    apply (addNodeToMarkdown_sim nodeMap cm cm' Hcm _ _ _ t t' u); [done| |done].
    by apply Hdom. }
  destruct (forEachM _ (rootNodes nodes connections) initState) as [st1|] eqn:H1;
    [|done].
  assert (Hrel0 : sameOutline nodeMap initState initState) by done.
  assert (Hstep1 : ∀ a t t' u, a ∈ rootNodes nodes connections →
    sameOutline nodeMap t t' →
    addNodeToMarkdown nodeMap cm (S (length nodes)) (node_id a) 0 t = Some u →
    ∃ u', addNodeToMarkdown nodeMap cm' (S (length nodes)) (node_id a) 0 t' = Some u' ∧
          sameOutline nodeMap u u').
  { intros a t t' u Ha. apply Hcall.
    unfold rootNodes in Ha. by apply list_elem_of_filter in Ha as [_ ?]. }
  destruct (forEachM_sim nodeMap
              (λ node, addNodeToMarkdown nodeMap cm (S (length nodes)) (node_id node) 0)
              (λ node, addNodeToMarkdown nodeMap cm' (S (length nodes)) (node_id node) 0)
              _ _ _ _ Hstep1 Hrel0 H1) as (st1' & -> & Hrel1).
  destruct (forEachM _ nodes st1) as [st2|] eqn:H2; [|done].
  assert (Hstep2 : ∀ a t t' u, a ∈ nodes → sameOutline nodeMap t t' →
    (if bool_decide (node_id a ∈ visited t) then Some t
     else addNodeToMarkdown nodeMap cm (S (length nodes)) (node_id a) 0 t) = Some u →
    ∃ u', (if bool_decide (node_id a ∈ visited t') then Some t'
           else addNodeToMarkdown nodeMap cm' (S (length nodes)) (node_id a) 0 t')
          = Some u' ∧ sameOutline nodeMap u u').
  { intros a t t' u Ha Hrel Hrun.
    pose proof (Hdom a Ha) as Hd. pose proof Hrel as [He Hv].
    case_bool_decide as Hvis.
    - injection Hrun as <-. rewrite bool_decide_eq_true_2 by (by apply Hv).
      exists t'. done.
    - rewrite bool_decide_eq_false_2 by (by rewrite <- Hv).
      by apply (Hcall a t t' u). }
  destruct (forEachM_sim nodeMap
              (λ node st',
                 if bool_decide (node_id node ∈ visited st') then Some st'
                 else addNodeToMarkdown nodeMap cm (S (length nodes)) (node_id node) 0 st')
              (λ node st',
                 if bool_decide (node_id node ∈ visited st') then Some st'
                 else addNodeToMarkdown nodeMap cm' (S (length nodes)) (node_id node) 0 st')
              _ _ _ _ Hstep2 Hrel1 H2) as (st2' & -> & [He2 _]).
  by rewrite <- He2.
Qed.

End MissingTarget.

Section DanglingFacts.
Import ExportService.
Local Close Scope Q_scope.

Lemma renderable_false nodes c :
  renderable nodes c = false ↔
  findNode nodes (sourceNodeId c) = None ∨ findNode nodes (targetNodeId c) = None.
Proof.
  unfold renderable. rewrite andb_false_iff, !bool_decide_eq_false.
  rewrite <- !eq_None_not_Some. done.
Qed.

(** On the canvas and in the "Connections" section such a connection
    yields nothing. *)
Lemma dangling_not_drawn nodes c :
  renderable nodes c = false →
  MindMapCanvas.renderConnection nodes c = None ∧ connectionLine nodes c = None.
Proof.
  intros H. apply renderable_false in H.
  unfold MindMapCanvas.renderConnection, connectionLine.
  destruct H as [-> | ->]; [done|].
  by destruct (findNode nodes (sourceNodeId c)).
Qed.

(** C8.  Nodes A, T and connections X -> T, T -> A, where X is not a node.
    The first connection is neither drawn nor listed in the "Connections"
    section, and the outline is produced without failure.  But the outline
    is A at level 0, then T at level 0, whereas without the connection
    X -> T it is T at level 0, then A at level 1: the target T of the
    connection with the missing source counts as having an incoming
    connection and is no longer a root. *)
Theorem dangling_source_changes_outline :
  let nodes := Examples.danglingNodes in
  let connections := Examples.danglingConnections in
  map (renderable nodes) connections = [false; true] ∧
  MindMapCanvas.renderConnections Examples.danglingMap
    = [None; Some ("c2", Examples.nodeT, Examples.nodeA)] ∧
  connectionLines nodes connections = [(Examples.nodeT, Examples.nodeA)] ∧
  linearize nodes connections
    = Some [(Examples.nodeA, 0); (Examples.nodeT, 0)] ∧
  linearize nodes (List.filter (renderable nodes) connections)
    = Some [(Examples.nodeT, 0); (Examples.nodeA, 1)] ∧
  linearize nodes connections
    ≠ linearize nodes (List.filter (renderable nodes) connections).
Proof.
  intros nodes connections.
  assert (H1 : linearize nodes connections
               = Some [(Examples.nodeA, 0); (Examples.nodeT, 0)])
    by (vm_compute; reflexivity).
  assert (H2 : linearize nodes (List.filter (renderable nodes) connections)
               = Some [(Examples.nodeT, 0); (Examples.nodeA, 1)])
    by (vm_compute; reflexivity).
  split; [vm_compute; reflexivity|]. split; [vm_compute; reflexivity|].
  split; [vm_compute; reflexivity|]. split; [exact H1|]. split; [exact H2|].
  rewrite H1, H2. intros H. discriminate H.
Qed.

End DanglingFacts.

(** * More about the Markdown outline *)

Section OutlineShape.
Import ExportService.
Local Close Scope Q_scope.

(** The children recorded for a source are the targets of its connections,
    in connection order. *)
Lemma connectionMap_children (connections : list Connection) (s : string) :
  default [] (buildConnectionMap connections !! s)
  = map targetNodeId (filter (λ c, sourceNodeId c = s) connections).
Proof.
  unfold buildConnectionMap.
  induction connections as [|c connections IH] using rev_ind; [done|].
  rewrite foldl_app. simpl. unfold addConnection at 1.
  rewrite filter_app, map_app.
  destruct (decide (sourceNodeId c = s)) as [<-|Hne].
  - rewrite lookup_insert_eq. simpl. rewrite IH.
    by rewrite filter_cons_True, filter_nil by done.
  - rewrite lookup_insert_ne by done. rewrite IH.
    rewrite filter_cons_False, filter_nil by done. by rewrite app_nil_r.
Qed.

Lemma forEachM_run_inv {A} (P : LinState → Prop)
    (f : A → LinState → option LinState) (l : list A) : ∀ st st',
  (∀ a s s', a ∈ l → P s → f a s = Some s' → P s') →
  P st → forEachM f l st = Some st' → P st'.
Proof.
  induction l as [|a l IH]; intros st st' Hstep HP Hrun; simpl in Hrun.
  - by injection Hrun as <-.
  - destruct (f a st) as [s1|] eqn:Hf; [|done].
    apply (IH s1 st'); [|by apply (Hstep a st s1); [left|..]|done].
    intros b s s' Hb. apply Hstep. by right.
Qed.

Lemma snoc_split {A} (es pre post : list A) (x y : A) :
  es ++ [x] = pre ++ y :: post →
  (post = [] ∧ pre = es ∧ x = y) ∨
  (∃ post', post = post' ++ [x] ∧ es = pre ++ y :: post').
Proof.
  destruct post as [|z post _] using rev_ind.
  - intros H. apply app_inj_tail in H as [-> ->]. by left.
  - intros H. right. exists post.
    rewrite app_comm_cons, app_assoc in H.
    apply app_inj_tail in H as [-> ->]. done.
Qed.

Lemma parentsOk_snoc_zero connections es n :
  parentsOk connections es → parentsOk connections (es ++ [(n, 0)]).
Proof.
  intros Hok pre m k post Heq.
  apply snoc_split in Heq as [(_ & _ & [=]) | (post' & -> & ->)].
  by apply (Hok pre m k post').
Qed.

Lemma parentsOk_snoc_child connections pre1 p mid n k :
  parentsOk connections (pre1 ++ (p, k) :: mid) →
  Forall (λ e, S k ≤ snd e) mid → connects connections p n →
  parentsOk connections ((pre1 ++ (p, k) :: mid) ++ [(n, S k)]).
Proof.
  intros Hok Hmid Hedge pre m j post Heq.
  apply snoc_split in Heq as [(-> & -> & [= -> ->]) | (post' & -> & Heq)].
  - by exists pre1, p, mid.
  - by apply (Hok pre m j post').
Qed.

Section Nesting.
Variable connections : list Connection.
Variable nodeMap : gmap string Node.
Hypothesis nodeMap_keyed : ∀ id n, nodeMap !! id = Some n → node_id n = id.

Lemma addNodeToMarkdown_nesting fuel : ∀ nodeId level st st',
  parentsOk connections (entries st) →
  underParent connections nodeId level (entries st) →
  addNodeToMarkdown nodeMap (buildConnectionMap connections) fuel nodeId level st = Some st' →
  ∃ new, entries st' = entries st ++ new ∧
         Forall (λ e, level ≤ snd e) new ∧
         parentsOk connections (entries st').
Proof.
  induction fuel as [|fuel IH]; intros nodeId level st st' Hok Hunder Hrun; [done|].
  simpl in Hrun. case_bool_decide as Hvis.
  { injection Hrun as <-. exists []. by rewrite app_nil_r. }
  destruct (nodeMap !! nodeId) as [node|] eqn:Hlook.
  2:{ injection Hrun as <-. exists []. simpl. by rewrite app_nil_r. }
  pose proof (nodeMap_keyed _ _ Hlook) as Hid.
  set (P := λ s : LinState,
    ∃ acc, entries s = entries st ++ (node, level) :: acc ∧
           Forall (λ e, S level ≤ snd e) acc ∧
           parentsOk connections (entries s)).
  assert (Hstep : ∀ child s s',
    child ∈ default [] (buildConnectionMap connections !! nodeId) → P s →
    addNodeToMarkdown nodeMap (buildConnectionMap connections) fuel child (S level) s
      = Some s' → P s').
  { intros child s s' Hchild (acc & Hent & Hacc & Hoks) Hcall.
    destruct (IH child (S level) s s' Hoks) as (new & Hent' & Hnew & Hok'); [|done|].
    - exists (entries st), node, acc. split; [done|]. split; [done|].
      rewrite connectionMap_children in Hchild.
      apply list_elem_of_fmap in Hchild as [c [-> Hc]].
      apply list_elem_of_filter in Hc as [Hsrc Hc].
      exists c. split; [done|]. by rewrite Hid.
    - exists (acc ++ new). split; [|split; [|done]].
      + rewrite Hent', Hent. by rewrite <- app_assoc.
      + by apply Forall_app. }
  assert (Hbase : P (emit node level (markVisited nodeId st))).
  { exists []. simpl. split; [done|]. split; [done|].
    destruct level as [|k].
    - by apply parentsOk_snoc_zero.
    - destruct Hunder as (pre1 & p & mid & Hes & Hmid & c & Hc & Hsrc & Htgt).
      rewrite Hes. apply parentsOk_snoc_child; [by rewrite <- Hes|done|].
      exists c. split; [done|]. by rewrite Hid. }
  destruct (forEachM_run_inv P _ _ _ _ Hstep Hbase Hrun) as (acc & Hent & Hacc & Hok').
  exists ((node, level) :: acc). split; [done|]. split; [|done].
  constructor; [done|]. eapply Forall_impl; [exact Hacc|]. simpl. lia.
Qed.

End Nesting.

Lemma linearize_parentsOk (nodes : list Node) (connections : list Connection) out :
  linearize nodes connections = Some out → parentsOk connections out.
Proof.
  unfold linearize, linearizeFuel.
  destruct (length nodes =? 0)%nat.
  { intros [= <-] pre n k post Heq. by destruct pre. }
  set (nodeMap := buildNodeMap nodes).
  assert (Hkeyed : ∀ id n, nodeMap !! id = Some n → node_id n = id)
    by apply buildNodeMap_keyed.
  assert (Hcall : ∀ n s s', parentsOk connections (entries s) →
    addNodeToMarkdown nodeMap (buildConnectionMap connections)
      (S (length nodes)) (node_id n) 0 s = Some s' →
    parentsOk connections (entries s')).
  { intros n s s' Hok Hrun.
    by destruct (addNodeToMarkdown_nesting connections nodeMap Hkeyed
                   (S (length nodes)) (node_id n) 0 s s' Hok I Hrun)
      as (_ & _ & _ & ?). }
  unfold visitRoots, visitRemaining.
  destruct (forEachM _ (rootNodes nodes connections) initState) as [st1|] eqn:H1;
    [|done].
  destruct (forEachM _ nodes st1) as [st2|] eqn:H2; [|done].
  intros [= <-].
  assert (Hok1 : parentsOk connections (entries st1)).
  { refine (forEachM_run_inv (λ s, parentsOk connections (entries s))
              _ _ _ _ _ _ H1).
    - intros a s s' _. apply Hcall.
    - intros pre n k post Heq. by destruct pre. }
  refine (forEachM_run_inv (λ s, parentsOk connections (entries s))
            _ _ _ _ _ Hok1 H2).
  intros a s s' _ Hok. cbv beta. case_bool_decide; [by intros [= <-]|by apply Hcall].
Qed.

Lemma stepsOk_consecutive (es : list Entry) :
  (∀ pre e1 e2 post, es = pre ++ e1 :: e2 :: post → snd e2 ≤ S (snd e1)) →
  ∀ e rest, es = e :: rest → stepsOk (snd e) (map snd rest) = true.
Proof.
  revert es. intros es Hcons e rest ->. revert e Hcons.
  induction rest as [|e2 rest IH]; intros e Hcons; [done|].
  simpl. apply andb_true_iff. split.
  - apply Nat.leb_le. by apply (Hcons [] e e2 rest).
  - apply IH. intros pre a b post Heq.
    apply (Hcons (e :: pre) a b post). by rewrite Heq.
Qed.

Lemma parentsOk_wellNested connections (es : list Entry) :
  parentsOk connections es → wellNested (map snd es) = true.
Proof.
  intros Hok. destruct es as [|[n l] rest]; [done|].
  simpl. apply andb_true_iff. split.
  - destruct l as [|k]; [done|].
    destruct (Hok [] n k rest eq_refl) as (pre1 & p & mid & Heq & _).
    by destruct pre1.
  - change l with (snd (n, l)).
    apply (stepsOk_consecutive ((n, l) :: rest)); [|done].
    intros pre e1 [m [|k]] post Heq; simpl; [lia|].
    assert (Heq' : (n, l) :: rest = (pre ++ [e1]) ++ (m, S k) :: post)
      by (rewrite <- app_assoc; exact Heq).
    destruct (Hok _ m k post Heq') as (pre1 & p & mid & Hpre & Hmid & _).
    destruct mid as [|x mid _] using rev_ind.
    + apply app_inj_tail in Hpre as [_ ->]. simpl. lia.
    + rewrite app_comm_cons, app_assoc in Hpre.
      apply app_inj_tail in Hpre as [_ ->].
      rewrite Forall_app, Forall_singleton in Hmid. destruct Hmid as [_ Hx].
      simpl in Hx. lia.
Qed.

(** X1.  The outline is a well-formed nested list for every map: it is
    produced, its first line is at level 0, and no line is more than one
    level deeper than the line before it. *)
Theorem outline_well_nested (nodes : list Node) (connections : list Connection) :
  ∃ out, linearize nodes connections = Some out ∧
         wellNested (map snd out) = true.
Proof.
  destruct (linearize_covers nodes connections) as (out & Hout & _).
  exists out. split; [done|].
  apply (parentsOk_wellNested connections). by apply (linearize_parentsOk nodes).
Qed.

(** X2.  In the outline every indented line sits under a node that is
    connected to it: a line at level k+1 has before it a line at level k,
    with only deeper lines in between, whose node is the source of a
    connection to the line's node.  Hence a node that is the target of no
    connection is never indented. *)
Theorem outline_parent_is_connected
    (nodes : list Node) (connections : list Connection) (out : list Entry) :
  linearize nodes connections = Some out →
  parentsOk connections out ∧
  (∀ n level, (n, level) ∈ out →
     node_id n ∉ hasIncoming connections → level = 0).
Proof.
  intros Hout. pose proof (linearize_parentsOk _ _ _ Hout) as Hok.
  split; [done|].
  intros n [|k] Hin Hroot; [done|]. exfalso. apply Hroot.
  apply list_elem_of_split in Hin as (pre & post & ->).
  destruct (Hok pre n k post eq_refl) as (_ & p & _ & _ & _ & c & Hc & _ & Htgt).
  unfold hasIncoming. apply elem_of_list_to_set, list_elem_of_fmap.
  by exists c.
Qed.

Lemma outline_parent_is_connected_witness :
  parentsOk Examples.starConnections
    [(Examples.nodeA, 0); (Examples.nodeB, 1); (Examples.nodeC, 1)] ∧
  (∀ n level,
     (n, level) ∈ [(Examples.nodeA, 0); (Examples.nodeB, 1); (Examples.nodeC, 1)] →
     node_id n ∉ hasIncoming Examples.starConnections → level = 0).
Proof.
  apply (outline_parent_is_connected
           [Examples.nodeA; Examples.nodeB; Examples.nodeC]
           Examples.starConnections).
  vm_compute. reflexivity.
Defined.

End OutlineShape.

Section OutlineEdges.
Import ExportService.
Local Close Scope Q_scope.

(** With several nodes under one id, the node map keeps the last one. *)
Lemma buildNodeMap_last (nodes : list Node) (id : string) :
  buildNodeMap nodes !! id = findNode (rev nodes) id.
Proof.
  unfold buildNodeMap, findNode.
  induction nodes as [|n nodes IH] using rev_ind; [done|].
  rewrite foldl_app, rev_app_distr. simpl.
  destruct (String.eqb_spec (node_id n) id) as [->|Hne].
  - by rewrite lookup_insert_eq.
  - by rewrite lookup_insert_ne.
Qed.

(** X3.  Whatever the node list, even with repeated ids, the outline is
    produced and shows every id of the list exactly once; the node shown for
    an id is the last node of the list that carries it. *)
Theorem outline_shows_each_id_once
    (nodes : list Node) (connections : list Connection) :
  ∃ out, linearize nodes connections = Some out ∧
         NoDup (map entryId out) ∧
         (∀ id, id ∈ map entryId out ↔ id ∈ map node_id nodes) ∧
         (∀ e, e ∈ out → findNode (rev nodes) (entryId e) = Some (fst e)).
Proof.
  destruct (decide (nodes = [])) as [->|Hne].
  { exists []. split; [done|]. split; [constructor|]. split; [done|].
    intros e He. by apply elem_of_nil in He. }
  destruct (linearize_covers nodes connections) as (out & Hout & Hnd & Hids & _).
  destruct (linearize_run nodes connections Hne) as (st & Hrun & [Hk _ _] & _).
  exists out. split; [done|]. split; [done|]. split; [done|].
  intros e He. rewrite Hout in Hrun. injection Hrun as ->.
  destruct (Hk e He) as [Hlook _]. by rewrite <- buildNodeMap_last.
Qed.

Lemma visitRoots_isolated nodeMap fuel (l : list Node) : ∀ st,
  NoDup (map node_id l) →
  (∀ n, n ∈ l → (node_id n ∉ visited st) ∧ (nodeMap !! node_id n = Some n)) →
  ∃ st', visitRoots nodeMap ∅ (S fuel) l st = Some st' ∧
         entries st' = entries st ++ map (λ n, (n, 0)) l ∧
         visited st ⊆ visited st' ∧
         ∀ n, n ∈ l → node_id n ∈ visited st'.
Proof.
  unfold visitRoots.
  induction l as [|a l IH]; intros st Hnd Hl.
  - exists st. split; [done|]. split; [by rewrite app_nil_r|]. split; [done|].
    intros n Hn. by apply elem_of_nil in Hn.
  - apply NoDup_cons in Hnd as [Ha Hnd].
    destruct (Hl a) as [Hfresh Hlook]; [by left|].
    cbn [forEachM].
    rewrite (addNode_fresh nodeMap ∅ fuel (node_id a) 0 st a None Hfresh Hlook)
      by apply lookup_empty.
    cbn [default from_option id forEachM].
    destruct (IH (emit a 0 (markVisited (node_id a) st)) Hnd)
      as (st' & Hrun & Hent & Hsub & Hvis).
    { intros n Hn. destruct (Hl n) as [Hn1 Hn2]; [by right|]. split; [|done].
      simpl. intros Hin. apply elem_of_union in Hin as [Hin|Hin]; [|done].
      apply elem_of_singleton in Hin. apply Ha. rewrite <- Hin.
      apply list_elem_of_fmap. by exists n. }
    simpl in Hsub.
    exists st'. split; [done|]. split; [|split].
    + rewrite Hent. simpl. by rewrite <- app_assoc.
    + set_solver.
    + intros n Hn. apply elem_of_cons in Hn as [->|Hn]; [set_solver|by apply Hvis].
Qed.

(** X4.  A map without connections, whose nodes have pairwise distinct ids,
    is listed flat: every node at level 0, in the order of the node list. *)
Theorem outline_without_connections (nodes : list Node) :
  NoDup (map node_id nodes) →
  linearize nodes [] = Some (map (λ n, (n, 0)) nodes).
Proof.
  intros Hnd. unfold linearize, linearizeFuel.
  destruct nodes as [|n0 nodes0] eqn:Hnodes; [done|]. rewrite <- Hnodes in *.
  replace (length nodes =? 0)%nat with false by (subst nodes; reflexivity).
  assert (Hroots : rootNodes nodes [] = nodes).
  { unfold rootNodes, hasIncoming. simpl. clear.
    induction nodes as [|n nodes IH]; [done|].
    rewrite filter_cons_True by set_solver. by rewrite IH. }
  rewrite Hroots. change (buildConnectionMap []) with (∅ : gmap string (list string)).
  destruct (visitRoots_isolated (buildNodeMap nodes) (length nodes) nodes initState Hnd)
    as (st1 & -> & Hent & _ & Hvis).
  { intros n Hn. split; [set_solver|]. by apply buildNodeMap_NoDup. }
  rewrite visitRemaining_all_seen by done.
  by rewrite Hent.
Qed.

Lemma outline_without_connections_witness :
  linearize Examples.cycleNodes []
  = Some [(Examples.nodeA, 0); (Examples.nodeB, 0); (Examples.nodeC, 0)].
Proof.
  apply (outline_without_connections Examples.cycleNodes). compute_done.
Defined.

(** X5.  A connection whose target is not a node of the map can be added or
    removed anywhere in the connection list without changing the outline. *)
Theorem outline_ignores_missing_target
    (nodes : list Node) (before after : list Connection) (c : Connection) :
  targetKnown nodes c = false →
  linearize nodes (before ++ c :: after) = linearize nodes (before ++ after).
Proof.
  intros Hc.
  rewrite <- (missing_target_ignored nodes (before ++ c :: after)).
  rewrite <- (missing_target_ignored nodes (before ++ after)).
  rewrite !List.filter_app. simpl. by rewrite Hc.
Qed.

Lemma outline_ignores_missing_target_witness :
  linearize Examples.cycleNodes
    (Examples.starConnections ++ Examples.mkConnection "c9" "A" "Z" :: [])
  = linearize Examples.cycleNodes (Examples.starConnections ++ []).
Proof.
  apply (outline_ignores_missing_target Examples.cycleNodes
           Examples.starConnections [] (Examples.mkConnection "c9" "A" "Z")).
  vm_compute. reflexivity.
Defined.

End OutlineEdges.

(** * Connections on the canvas and in the export; export file names *)

Section ConnectionListing.
Import ExportService.
Local Close Scope Q_scope.

Lemma findNode_Some nodes id n :
  findNode nodes id = Some n → n ∈ nodes ∧ node_id n = id.
Proof.
  unfold findNode. intros H. apply find_some in H as [Hin Heq].
  split; [by apply list_elem_of_In|]. by apply String.eqb_eq.
Qed.

Lemma connectionLine_renderable nodes c :
  is_Some (connectionLine nodes c) ↔ renderable nodes c = true.
Proof.
  unfold connectionLine, renderable.
  rewrite andb_true_iff, !bool_decide_eq_true.
  destruct (findNode nodes (sourceNodeId c)), (findNode nodes (targetNodeId c));
    split; try (intros [? ?]; done); try (intros [[? ?] [? ?]]; done);
    intros _; eauto.
Qed.

Lemma connectionLines_length nodes connections :
  length (connectionLines nodes connections)
  = length (List.filter (renderable nodes) connections).
Proof.
  unfold connectionLines.
  induction connections as [|c connections IH]; [done|].
  cbn [omap list_omap List.filter].
  pose proof (connectionLine_renderable nodes c) as Hiff.
  destruct (connectionLine nodes c) as [line|] eqn:Hline.
  - rewrite (proj1 Hiff) by eauto. simpl. by rewrite <- IH.
  - destruct (renderable nodes c) eqn:Hr; [|exact IH].
    destruct (proj2 Hiff eq_refl) as [? ?]. done.
Qed.

(** X6.  The canvas and the "Connections" section of the export agree: a
    connection gets a line on the canvas exactly when it gets a line in the
    export, namely when both its endpoints are nodes of the map; the two
    show the same pair of nodes; every exported line joins two nodes of the
    map along a connection of the map; and there are as many exported lines
    as connections with both endpoints present. *)
Theorem drawn_connections_are_listed (m : MapWithNodes) :
  let nodes := map_nodes m in
  let connections := map_connections m in
  (∀ c, is_Some (MindMapCanvas.renderConnection nodes c)
        ↔ is_Some (connectionLine nodes c)) ∧
  (∀ c, is_Some (connectionLine nodes c) ↔ renderable nodes c = true) ∧
  (∀ c key s t, MindMapCanvas.renderConnection nodes c = Some (key, s, t) →
     key = conn_id c ∧ connectionLine nodes c = Some (s, t)) ∧
  (∀ s t, (s, t) ∈ connectionLines nodes connections →
     s ∈ nodes ∧ t ∈ nodes ∧ connects connections s t) ∧
  length (connectionLines nodes connections)
  = length (List.filter (renderable nodes) connections).
Proof.
  intros nodes connections.
  split; [|split; [|split; [|split]]].
  - intros c. unfold MindMapCanvas.renderConnection, connectionLine.
    destruct (findNode nodes (sourceNodeId c)), (findNode nodes (targetNodeId c));
      split; intros [? ?]; try done; eauto.
  - apply connectionLine_renderable.
  - intros c key s t. unfold MindMapCanvas.renderConnection, connectionLine.
    destruct (findNode nodes (sourceNodeId c)), (findNode nodes (targetNodeId c));
      intros [=]; subst; done.
  - intros s t Hin. unfold connectionLines in Hin.
    apply list_elem_of_omap in Hin as (c & Hc & Hline).
    unfold connectionLine in Hline.
    destruct (findNode nodes (sourceNodeId c)) as [s'|] eqn:Hs; [|done].
    destruct (findNode nodes (targetNodeId c)) as [t'|] eqn:Ht; [|done].
    injection Hline as -> ->.
    apply findNode_Some in Hs as [Hs1 Hs2]. apply findNode_Some in Ht as [Ht1 Ht2].
    split; [done|]. split; [done|]. by exists c.
  - apply connectionLines_length.
Qed.

End ConnectionListing.

Section FileNames.
Import ExportMap.
Local Close Scope Q_scope.

Lemma mapString_length f s : String.length (mapString f s) = String.length s.
Proof. induction s as [|c s IH]; simpl; [done|]. by rewrite IH. Qed.

Lemma filename_char (c : ascii) :
  isFileChar (toLowerCaseUnit (if isAlnum c then c else "_"%char)) = true.
Proof.
  destruct c as [[] [] [] [] [] [] [] []]; vm_compute; reflexivity.
Qed.

Lemma fileChar_fixed (c : ascii) :
  isFileChar c = true →
  toLowerCaseUnit (if isAlnum c then c else "_"%char) = c.
Proof.
  destruct c as [[] [] [] [] [] [] [] []]; vm_compute; (reflexivity || discriminate).
Qed.

Lemma filename_cons c t :
  filename (String c t)
  = String (toLowerCaseUnit (if isAlnum c then c else "_"%char)) (filename t).
Proof. reflexivity. Qed.

(** X7.  The file name derived from a map title has as many characters as
    the title and consists of lowercase ASCII letters, digits and
    underscores only, so it holds no path separator, dot or space; a title
    that already has this form is its own file name, and deriving a file
    name twice changes nothing. *)
Theorem filename_is_safe (title : string) :
  String.length (filename title) = String.length title ∧
  allChars isFileChar (filename title) = true ∧
  (allChars isFileChar title = true → filename title = title) ∧
  filename (filename title) = filename title.
Proof.
  assert (Hsafe : ∀ t, allChars isFileChar (filename t) = true).
  { induction t as [|c t IH]; [done|]. rewrite filename_cons.
    cbn [allChars]. by rewrite filename_char, IH. }
  assert (Hfix : ∀ t, allChars isFileChar t = true → filename t = t).
  { induction t as [|c t IH]; [done|]. rewrite filename_cons.
    cbn [allChars]. intros H. apply andb_true_iff in H as [Hc Ht].
    by rewrite (fileChar_fixed c Hc), IH. }
  split; [|split; [|split]].
  - unfold filename, toLowerCase, replaceNonAlnum. by rewrite !mapString_length.
  - apply Hsafe.
  - apply Hfix.
  - apply Hfix, Hsafe.
Qed.

End FileNames.

(** * More about the canvas *)

Section PanFacts.
Import MindMapCanvas.
Variable map : option MapWithNodes.
Variable node : Node.

Abbreviation step' := (Session.step map node).
Abbreviation run' := (Session.run map node).

(** A document move while panning puts the pan offset at the pointer minus
    the stored start, whatever the component does. *)
Lemma panning_move sys e :
  isPanning (Session.canvas sys) = true →
  let sys' := step' sys (Session.DocumentPointerMove e) in
  isPanning (Session.canvas sys') = true ∧
  panStart (Session.canvas sys') = panStart (Session.canvas sys) ∧
  panOffset (Session.canvas sys')
    = {| px := clientX e - px (panStart (Session.canvas sys));
         py := clientY e - py (panStart (Session.canvas sys)) |} ∧
  zoomLevel (Session.canvas sys') = zoomLevel (Session.canvas sys) ∧
  requests (Session.canvas sys') = requests (Session.canvas sys).
Proof.
  intros Hp. simpl. unfold panListenersAttached. rewrite Hp.
  assert (Hc : Session.canvas
                 (if NodeComponent.dragListenersAttached (Session.component sys)
                  then Session.fromComponent map node sys
                         (NodeComponent.handlePointerMove e (Session.component sys))
                  else sys) = Session.canvas sys).
  { destruct (NodeComponent.dragListenersAttached _); [|done].
    unfold NodeComponent.handlePointerMove. by destruct (negb _). }
  rewrite Hc. unfold handlePanMove. rewrite Hp. simpl. done.
Qed.

Lemma panning_moves moves : ∀ sys eLast,
  isPanning (Session.canvas sys) = true →
  let sys' := run' sys (List.map Session.DocumentPointerMove (moves ++ [eLast])) in
  isPanning (Session.canvas sys') = true ∧
  panStart (Session.canvas sys') = panStart (Session.canvas sys) ∧
  panOffset (Session.canvas sys')
    = {| px := clientX eLast - px (panStart (Session.canvas sys));
         py := clientY eLast - py (panStart (Session.canvas sys)) |} ∧
  zoomLevel (Session.canvas sys') = zoomLevel (Session.canvas sys) ∧
  requests (Session.canvas sys') = requests (Session.canvas sys).
Proof.
  induction moves as [|e moves IH]; intros sys eLast Hp.
  - by apply panning_move.
  - destruct (panning_move sys e Hp) as (Hp1 & Hs1 & _ & Hz1 & Hr1).
    destruct (IH _ eLast Hp1) as (Hp2 & Hs2 & Ho2 & Hz2 & Hr2).
    cbv zeta.
    change (run' sys (List.map Session.DocumentPointerMove ((e :: moves) ++ [eLast])))
      with (run' (step' sys (Session.DocumentPointerMove e))
                 (List.map Session.DocumentPointerMove (moves ++ [eLast]))).
    split; [exact Hp2|]. split; [by rewrite Hs2|]. split; [by rewrite Ho2, Hs1|].
    split; [by rewrite Hz2|by rewrite Hr2].
Qed.

(** X8.  A pan with the mouse (pointer-down with the middle button, or with
    the primary button and Shift, then moves): after the last move the pan
    offset is the offset at the pointer-down plus the pointer's
    displacement; the zoom is unchanged and no request is sent.  The
    pointer-up ends the pan and keeps the offset. *)
Theorem mouse_pan_follows_pointer
    (sys : Session.System) (e0 eLast eUp : PointerEvent)
    (moves : list PointerEvent) :
  button e0 = 1%Z ∨ (button e0 = 0%Z ∧ shiftKey e0 = true) →
  NodeComponent.isDragging (Session.component sys) = false →
  let panned := run' sys (Session.CanvasPointerDown e0
                          :: List.map Session.DocumentPointerMove (moves ++ [eLast])) in
  let released := step' panned (Session.DocumentPointerUp eUp) in
  isPanning (Session.canvas panned) = true ∧
  px (panOffset (Session.canvas panned))
    == px (panOffset (Session.canvas sys)) + (clientX eLast - clientX e0) ∧
  py (panOffset (Session.canvas panned))
    == py (panOffset (Session.canvas sys)) + (clientY eLast - clientY e0) ∧
  zoomLevel (Session.canvas panned) = zoomLevel (Session.canvas sys) ∧
  requests (Session.canvas panned) = requests (Session.canvas sys) ∧
  isPanning (Session.canvas released) = false ∧
  panOffset (Session.canvas released) = panOffset (Session.canvas panned) ∧
  requests (Session.canvas released) = requests (Session.canvas sys).
Proof.
  intros Hbutton Hidle panned released.
  set (down := step' sys (Session.CanvasPointerDown e0)).
  assert (Hdown : isPanning (Session.canvas down) = true ∧
                  panStart (Session.canvas down)
                    = {| px := clientX e0 - px (panOffset (Session.canvas sys));
                         py := clientY e0 - py (panOffset (Session.canvas sys)) |} ∧
                  zoomLevel (Session.canvas down) = zoomLevel (Session.canvas sys) ∧
                  requests (Session.canvas down) = requests (Session.canvas sys) ∧
                  Session.component down = Session.component sys).
  { subst down. simpl. unfold handlePanStart.
    destruct Hbutton as [-> | [-> ->]]; simpl; done. }
  destruct Hdown as (Hp & Hs & Hz & Hr & Hcomp).
  destruct (panning_moves moves down eLast Hp) as (Hp' & Hs' & Ho' & Hz' & Hr').
  change (run' down (List.map Session.DocumentPointerMove (moves ++ [eLast])))
    with panned in Hp', Hs', Ho', Hz', Hr'.
  assert (Hcomp' : NodeComponent.isDragging (Session.component panned) = false).
  { subst panned.
    change (run' sys (Session.CanvasPointerDown e0
                      :: List.map Session.DocumentPointerMove (moves ++ [eLast])))
      with (run' down (List.map Session.DocumentPointerMove (moves ++ [eLast]))).
    assert (Hd : NodeComponent.isDragging (Session.component down) = false)
      by (by rewrite Hcomp).
    clear -Hd. revert Hd. generalize down. generalize (moves ++ [eLast]).
    induction l as [|e l IH]; intros s Hd; [done|].
    simpl. apply IH. simpl. unfold NodeComponent.dragListenersAttached.
    by rewrite Hd. }
  split; [exact Hp'|]. split; [rewrite Ho', Hs; simpl; ring|].
  split; [rewrite Ho', Hs; simpl; ring|].
  split; [by rewrite Hz'|]. split; [by rewrite Hr'|].
  subst released. simpl. unfold NodeComponent.dragListenersAttached.
  rewrite Hcomp'. unfold panListenersAttached. rewrite Hp'. simpl.
  split; [done|]. split; [done|]. by rewrite Hr'.
Qed.

End PanFacts.

Lemma mouse_pan_follows_pointer_witness :
  px (MindMapCanvas.panOffset (Session.canvas
        (Session.run None Examples.nodeA Session.idle
           (Session.CanvasPointerDown MoreExamples.middleDown
            :: List.map Session.DocumentPointerMove
                 ([Examples.pointerAt MindMapCanvas.mouse 30 15]
                  ++ [Examples.pointerAt MindMapCanvas.mouse 50 5])))))
  == 0 + (50 - 10).
Proof.
  exact (proj1 (proj2 (mouse_pan_follows_pointer None Examples.nodeA Session.idle
    MoreExamples.middleDown
    (Examples.pointerAt MindMapCanvas.mouse 50 5)
    (Examples.pointerAt MindMapCanvas.mouse 50 5)
    [Examples.pointerAt MindMapCanvas.mouse 30 15]
    (or_introl eq_refl) eq_refl))).
Defined.

Section CallFacts.
Import MindMapCanvas CanvasCalls.
Variable map : option MapWithNodes.

(** What one call can add to the request log. *)
Lemma call_requests st c :
  requests (call map st c) = requests st ∨
  ∃ r, requests (call map st c) = requests st ++ [r] ∧
       match r with
       | PostNode _ => ∃ rect, c = AddNode rect
       | PutNodePosition id _ _ => ∃ x y, c = Move id x y
       | PostConnection _ s t =>
           c = Select t true ∧ connectionStartNode st = Some s ∧ s ≠ t
       end.
Proof.
  destruct c; simpl.
  - unfold handleNodeClick. destruct isCtrlKey, map as [m|]; try by left.
    destruct (connectionStartNode st) as [start|] eqn:Hstart; [|by left].
    destruct (String.eqb_spec start nodeId) as [->|Hne]; [by left|].
    right. eexists. split; [reflexivity|]. done.
  - right. eexists. split; [reflexivity|]. by eexists _, _.
  - left. unfold handleCanvasClick. by destruct targetIsCurrentTarget.
  - by left.
  - unfold handleAddNode. destruct map as [m|]; [|by left].
    destruct rect as [[w h]|]; [|by left].
    right. eexists. split; [reflexivity|]. by eexists.
  - by left.
  - left. unfold handlePanStart. destruct (_ || _); [done|]. by destruct (isTouch _).
  - left. unfold handlePanMove.
    destruct (isPanning st), (isTouch (pointerType e)),
      (Qgt_bool (moveDistance e st) 10); reflexivity.
  - by left.
Qed.

(** X9.  Whatever calls reach the canvas, the request log only grows at its
    end, by at most one request per call, and no call ever asks for a
    connection from a node to itself: a modifier-click on the pending
    source cancels instead. *)
Theorem requests_only_grow (st : State) (cs : list Call) :
  ∃ sent, requests (calls map st cs) = requests st ++ sent ∧
          (length sent ≤ length cs)%nat ∧
          Forall (λ r, isSelfLoop r = false) sent.
Proof.
  revert st. induction cs as [|c cs IH]; intros st.
  - exists []. by rewrite app_nil_r.
  - destruct (IH (call map st c)) as (sent & Hsent & Hlen & Hloop).
    change (calls map st (c :: cs)) with (calls map (call map st c) cs).
    destruct (call_requests st c) as [Hsame | (r & Hr & Hkind)].
    + exists sent. rewrite Hsent, Hsame. split; [done|]. split; [simpl; lia|done].
    + exists (r :: sent). rewrite Hsent, Hr, <- app_assoc.
      split; [done|]. split; [simpl; lia|].
      constructor; [|done].
      destruct r as [| |mid s t]; [done|done|].
      destruct Hkind as (_ & _ & Hne). simpl. by apply String.eqb_neq.
Qed.

(** X10.  Creating a connection takes two modifier-clicks: the first, with
    no source pending, records the clicked node and sends nothing; the
    second, on another node, sends exactly one create request from the
    recorded node to the clicked one.  Neither changes the selection.  The
    source stays pending until the creation succeeds. *)
Theorem connection_by_two_clicks (m : MapWithNodes) (a b : string) (st : State) :
  connectionStartNode st = None → a ≠ b →
  let st1 := handleNodeClick (Some m) a true st in
  let st2 := handleNodeClick (Some m) b true st1 in
  connectionStartNode st1 = Some a ∧
  requests st1 = requests st ∧
  requests st2 = requests st ++ [PostConnection (map_id m) a b] ∧
  selectedNodeId st2 = selectedNodeId st ∧
  connectionStartNode st2 = Some a ∧
  connectionStartNode (onConnectionCreated st2) = None.
Proof.
  intros Hnone Hne st1 st2.
  assert (H1 : st1 = setConnectionStartNode (Some a) st).
  { subst st1. unfold handleNodeClick. by rewrite Hnone. }
  assert (H2 : st2 = mutate (PostConnection (map_id m) a b) st1).
  { subst st2. rewrite H1. unfold handleNodeClick.
    cbn [connectionStartNode setConnectionStartNode].
    by rewrite (proj2 (String.eqb_neq a b) Hne). }
  rewrite H2, H1. done.
Qed.

End CallFacts.

Lemma connection_by_two_clicks_witness :
  MindMapCanvas.requests
    (MindMapCanvas.handleNodeClick (Some Examples.starMap) "B" true
       (MindMapCanvas.handleNodeClick (Some Examples.starMap) "A" true
          MindMapCanvas.initial))
  = [MindMapCanvas.PostConnection "map-1" "A" "B"].
Proof.
  exact (proj1 (proj2 (proj2
    (connection_by_two_clicks Examples.starMap "A" "B" MindMapCanvas.initial
       eq_refl ltac:(discriminate))))).
Defined.

Section PlacementFacts.
Import MindMapCanvas CanvasCalls.

Lemma grid_slots_differ (n1 n2 : Z) :
  (0 <= n1)%Z → (0 <= n2)%Z → n1 ≠ n2 →
  (n1 mod 3 + 1 <= n2 mod 3)%Z ∨ (n2 mod 3 + 1 <= n1 mod 3)%Z ∨
  (n1 / 3 + 1 <= n2 / 3)%Z ∨ (n2 / 3 + 1 <= n1 / 3)%Z.
Proof.
  intros H1 H2 Hne.
  pose proof (Z.div_mod n1 3 ltac:(lia)). pose proof (Z.div_mod n2 3 ltac:(lia)).
  lia.
Qed.

Lemma inject_Z_step (a b : Z) : (a + 1 <= b)%Z → inject_Z a + 1 <= inject_Z b.
Proof.
  intros H. rewrite Zle_Qle, inject_Z_plus in H. exact H.
Qed.

(** X11.  Default placements do not stack: for one viewport, the nodes
    created for two different node counts, both lying strictly beyond the
    lower bound 20 on both axes (so nothing was raised to the bound), are
    120 x 60 rectangles that do not meet. *)
Theorem default_placements_apart
    (m1 m2 : MapWithNodes) (rect : Q * Q) (st : State) (n1 n2 : InsertNode) :
  length (map_nodes m1) ≠ length (map_nodes m2) →
  createdNode m1 rect st = Some n1 →
  createdNode m2 rect st = Some n2 →
  20 < ins_x n1 → 20 < ins_y n1 → 20 < ins_x n2 → 20 < ins_y n2 →
  apart n1 n2.
Proof.
  intros Hlen H1 H2 Hx1 Hy1 Hx2 Hy2.
  destruct rect as [w h]. unfold createdNode, handleAddNode in H1, H2.
  cbn [requests mutate] in H1, H2. rewrite last_snoc in H1, H2.
  injection H1 as <-. injection H2 as <-.
  cbn [ins_x ins_y ins_width ins_height] in *. unfold apart.
  cbn [ins_x ins_y ins_width ins_height].
  set (cx := (w / 2 - px (panOffset st)) / zoomLevel st - 60) in *.
  set (cy := (h / 2 - py (panOffset st)) / zoomLevel st - 30) in *.
  set (k1 := Z.of_nat (length (map_nodes m1))) in *.
  set (k2 := Z.of_nat (length (map_nodes m2))) in *.
  assert (Hk : k1 ≠ k2) by (subst k1 k2; lia).
  assert (Hmax : ∀ v, 20 < Qmax 20 v → Qmax 20 v == v).
  { intros v Hv. destruct (Q.max_spec 20 v) as [[_ Heq]|[_ Heq]]; [done|].
    rewrite Heq in Hv. lra. }
  rewrite (Hmax _ Hx1), (Hmax _ Hx2), (Hmax _ Hy1), (Hmax _ Hy2).
  destruct (grid_slots_differ k1 k2) as [H|[H|[H|H]]];
    [subst k1; lia|subst k2; lia|done|..];
    apply inject_Z_step in H.
  - left. lra.
  - right. left. lra.
  - right. right. left. lra.
  - right. right. right. lra.
Qed.

Lemma default_placements_apart_witness :
  ∃ n1 n2,
    createdNode MoreExamples.emptyMap (800, 600) initial = Some n1 ∧
    createdNode Examples.starMap (800, 600) initial = Some n2 ∧
    apart n1 n2.
Proof.
  eexists _, _. split; [reflexivity|]. split; [reflexivity|].
  apply (default_placements_apart MoreExamples.emptyMap Examples.starMap
           (800, 600) initial);
    [discriminate|reflexivity|reflexivity|reflexivity..].
Defined.

End PlacementFacts.

Section ZoomControls.
Import MindMapCanvas Toolbar.

(** X12.  With the zoom within [0.1, 3], a zoom button that is enabled
    always changes the zoom: the zoom-in button is enabled exactly below 3
    and then raises the zoom, the zoom-out button is enabled exactly above
    0.1 and then lowers it, and the result stays within [0.1, 3].  At the
    bound the button is disabled and the click does nothing. *)
Theorem enabled_zoom_button_changes_zoom (st : State) :
  inZoomRange (zoomLevel st) →
  (zoomInDisabled (zoomLevel st) = false ↔ zoomLevel st < 3) ∧
  (zoomOutDisabled (zoomLevel st) = false ↔ 0.1 < zoomLevel st) ∧
  (zoomLevel st < 3 →
     zoomLevel st < zoomLevel (clickZoomIn st) ∧
     inZoomRange (zoomLevel (clickZoomIn st))) ∧
  (0.1 < zoomLevel st →
     zoomLevel (clickZoomOut st) < zoomLevel st ∧
     inZoomRange (zoomLevel (clickZoomOut st))) ∧
  (zoomLevel st == 3 → clickZoomIn st = st) ∧
  (zoomLevel st == 0.1 → clickZoomOut st = st).
Proof.
  intros [Hlo Hhi].
  assert (Hin : zoomInDisabled (zoomLevel st) = false ↔ zoomLevel st < 3).
  { unfold zoomInDisabled. rewrite <- not_true_iff_false, Qle_bool_iff. lra. }
  assert (Hout : zoomOutDisabled (zoomLevel st) = false ↔ 0.1 < zoomLevel st).
  { unfold zoomOutDisabled. rewrite <- not_true_iff_false, Qle_bool_iff. lra. }
  split; [exact Hin|]. split; [exact Hout|].
  split; [|split; [|split]].
  - intros Hlt. unfold clickZoomIn. rewrite (proj2 Hin Hlt).
    split; [|by apply handleZoomIn_in_range].
    unfold handleZoomIn. simpl. apply Q.min_glb_lt; lra.
  - intros Hgt. unfold clickZoomOut. rewrite (proj2 Hout Hgt).
    split; [|by apply handleZoomOut_in_range].
    unfold handleZoomOut. simpl. apply Q.max_lub_lt; [|lra].
    apply Qlt_shift_div_r; lra.
  - intros Heq. unfold clickZoomIn.
    assert (Hd : zoomInDisabled (zoomLevel st) = true)
      by (apply Qle_bool_iff; lra).
    by rewrite Hd.
  - intros Heq. unfold clickZoomOut.
    assert (Hd : zoomOutDisabled (zoomLevel st) = true)
      by (apply Qle_bool_iff; lra).
    by rewrite Hd.
Qed.

Lemma enabled_zoom_button_changes_zoom_witness :
  zoomLevel initial < zoomLevel (clickZoomIn initial) ∧
  zoomLevel (clickZoomOut initial) < zoomLevel initial.
Proof.
  assert (H : inZoomRange (zoomLevel initial)) by (split; vm_compute; discriminate).
  destruct (enabled_zoom_button_changes_zoom initial H)
    as (_ & _ & Hin & Hout & _).
  split.
  - exact (proj1 (Hin eq_refl)).
  - exact (proj1 (Hout eq_refl)).
Defined.

(** X13.  Zooming in and then out with the buttons brings the zoom back
    when the zoom-in was not cut off at 3 (zoom at most 2.5); a wheel tick
    up followed by a wheel tick down does not: it leaves the zoom about one
    percent lower (for a zoom between 0.2 and 2.5, where no bound is hit).
    Both are stated with a margin that the rounding of the arithmetic stays
    within: the buttons bring the zoom back to within one part in a
    million, the two wheel ticks leave it between 0.98 and 0.995 times its
    value. *)
Theorem zoom_in_out_round_trip (st : State) (up down : Q) :
  0.2 <= zoomLevel st → zoomLevel st <= 2.5 →
  up <= 0 → 0 < down →
  let buttons := zoomLevel (handleZoomOut (handleZoomIn st)) in
  let wheel := zoomLevel (handleWheel down (handleWheel up st)) in
  (zoomLevel st * 0.999999 <= buttons ∧ buttons <= zoomLevel st * 1.000001) ∧
  (zoomLevel st * 0.98 <= wheel ∧ wheel <= zoomLevel st * 0.995) ∧
  wheel < buttons.
Proof.
  intros Hlo Hhi Hup Hdown buttons wheel.
  assert (Hu : Qgt_bool up 0 = false).
  { unfold Qgt_bool. apply negb_false_iff, Qle_bool_iff. exact Hup. }
  assert (Hd : Qgt_bool down 0 = true).
  { unfold Qgt_bool. apply negb_true_iff, not_true_iff_false.
    rewrite Qle_bool_iff. lra. }
  assert (Hbuttons : buttons == zoomLevel st).
  { subst buttons. unfold handleZoomOut, handleZoomIn. simpl.
    rewrite (Q.min_l (zoomLevel st * 1.2) 3) by lra.
    rewrite Q.max_l; [field|].
    apply Qle_shift_div_l; lra. }
  assert (Hwheel : wheel == zoomLevel st * 0.99).
  { subst wheel. unfold handleWheel. simpl. rewrite Hu, Hd. unfold wheelZoom.
    rewrite (Q.min_r 3 (zoomLevel st * 1.1)) by lra.
    rewrite (Q.max_r 0.1 (zoomLevel st * 1.1)) by lra.
    rewrite (Q.min_r 3 (zoomLevel st * 1.1 * 0.9)) by lra.
    rewrite (Q.max_r 0.1 (zoomLevel st * 1.1 * 0.9)) by lra.
    lra. }
  rewrite Hbuttons, Hwheel. lra.
Qed.

Lemma zoom_in_out_round_trip_witness :
  zoomLevel (handleWheel 100 (handleWheel (-100) initial))
  < zoomLevel (handleZoomOut (handleZoomIn initial)).
Proof.
  apply (zoom_in_out_round_trip initial (-100) 100); vm_compute;
    (discriminate || reflexivity).
Defined.

End ZoomControls.

Section NodePointerFacts.
Import MindMapCanvas.
Variable map : option MapWithNodes.
Variable node : Node.

Abbreviation step'' := (Session.step map node).
Abbreviation run'' := (Session.run map node).

(** X14.  A pointer-down on a node with Ctrl or Meta held does not start a
    drag: whatever moves and ups follow on the document, no request is sent
    after it, so the node is never moved by a modifier-click. *)
Theorem modifier_click_never_drags
    (sys : Session.System) (e0 : PointerEvent) (later : list Session.DomEvent) :
  ctrlKey e0 = true ∨ metaKey e0 = true →
  NodeComponent.isDragging (Session.component sys) = false →
  Forall (λ ev, ∃ e, ev = Session.DocumentPointerMove e ∨
                     ev = Session.DocumentPointerUp e) later →
  let clicked := step'' sys (Session.NodePointerDown e0) in
  NodeComponent.isDragging (Session.component clicked) = false ∧
  NodeComponent.styleOverride (Session.component clicked)
    = NodeComponent.styleOverride (Session.component sys) ∧
  Session.canvas clicked
    = handleNodeClick map (node_id node) true (Session.canvas sys) ∧
  requests (Session.canvas (run'' clicked later))
    = requests (Session.canvas clicked).
Proof.
  intros Hmod Hidle Hlater clicked.
  assert (Hdown : NodeComponent.handlePointerDown node e0 (Session.component sys)
                  = (Session.component sys, [NodeComponent.OnSelect true])).
  { unfold NodeComponent.handlePointerDown.
    destruct Hmod as [-> | ->]; [done|]. by rewrite orb_true_r. }
  assert (Hclicked : clicked
    = {| Session.canvas := handleNodeClick map (node_id node) true (Session.canvas sys);
         Session.component := Session.component sys |}).
  { subst clicked. simpl. by rewrite Hdown. }
  rewrite Hclicked. simpl.
  split; [done|]. split; [done|]. split; [done|].
  exact (released_quiet map node later
           {| Session.canvas := handleNodeClick map (node_id node) true (Session.canvas sys);
              Session.component := Session.component sys |} Hidle Hlater).
Qed.

(** X15.  A drag of a node while the canvas is not panning sends the node's
    position displaced by the pointer's displacement between down and up,
    taken through the viewport at the pointer-down: ((x + dx) - panX) / zoom.
    With no pan and zoom 1 this is the position plus the displacement. *)
Theorem drag_sends_displaced_position
    (sys : Session.System) (e0 eUp : PointerEvent) (moves : list PointerEvent) :
  ctrlKey e0 = false → metaKey e0 = false →
  isPanning (Session.canvas sys) = false →
  let pan := panOffset (Session.canvas sys) in
  let zoom := zoomLevel (Session.canvas sys) in
  ∃ x y,
    requests (Session.canvas (run'' sys (Session.dragSession e0 moves eUp)))
      = requests (Session.canvas sys) ++ [PutNodePosition (node_id node) x y] ∧
    x == (node_x node + (clientX eUp - clientX e0) - px pan) / zoom ∧
    y == (node_y node + (clientY eUp - clientY e0) - py pan) / zoom ∧
    (px pan == 0 → py pan == 0 → zoom == 1 →
       x == node_x node + (clientX eUp - clientX e0) ∧
       y == node_y node + (clientY eUp - clientY e0)).
Proof.
  intros Hc Hm Hp pan zoom.
  destruct (drag_down map node sys e0 Hc Hm) as (Hd0 & Hs0 & Hr0).
  assert (Hcanvas : panOffset (Session.canvas (step'' sys (Session.NodePointerDown e0))) = pan ∧
                    zoomLevel (Session.canvas (step'' sys (Session.NodePointerDown e0))) = zoom ∧
                    isPanning (Session.canvas (step'' sys (Session.NodePointerDown e0))) = false).
  { simpl. unfold NodeComponent.handlePointerDown.
    rewrite Hc, Hm. simpl. unfold handleNodeClick. by destruct map. }
  destruct Hcanvas as (Hpan & Hzoom & Hp0).
  remember (step'' sys (Session.NodePointerDown e0)) as down eqn:Hdown.
  destruct (drag_moves map node moves down Hd0) as (Hd & Hs & Hr).
  pose proof (touch_moves_ignored map node moves down Hp0) as Hsame.
  assert (Hrun : run'' sys (Session.dragSession e0 moves eUp)
                 = step'' (run'' down (List.map Session.DocumentPointerMove moves))
                     (Session.DocumentPointerUp eUp)).
  { unfold Session.dragSession.
    change (Session.NodePointerDown e0
            :: List.map Session.DocumentPointerMove moves
               ++ [Session.DocumentPointerUp eUp])
      with ((Session.NodePointerDown e0
             :: List.map Session.DocumentPointerMove moves)
            ++ [Session.DocumentPointerUp eUp]).
    rewrite run_app. by rewrite Hdown. }
  rewrite Hrun.
  remember (run'' down (List.map Session.DocumentPointerMove moves)) as dragging
    eqn:Hdragging.
  cbn [Session.step]. unfold NodeComponent.dragListenersAttached.
  rewrite Hd. unfold NodeComponent.handlePointerUp. rewrite Hd, Hs, Hs0.
  unfold panListenersAttached. rewrite Hsame, Hp0.
  cbn [negb Session.fromComponent Session.canvas Session.component fst snd
       Session.callbacks Session.callback foldl px py].
  unfold handleNodeMove. cbn [requests mutate].
  rewrite Hsame, Hpan, Hzoom, Hr0.
  eexists _, _. split; [reflexivity|].
  assert (Hx : (clientX eUp - (clientX e0 - node_x node) - px pan) / zoom
               == (node_x node + (clientX eUp - clientX e0) - px pan) / zoom).
  { unfold Qdiv. apply Qmult_comp; [ring|reflexivity]. }
  assert (Hy : (clientY eUp - (clientY e0 - node_y node) - py pan) / zoom
               == (node_y node + (clientY eUp - clientY e0) - py pan) / zoom).
  { unfold Qdiv. apply Qmult_comp; [ring|reflexivity]. }
  split; [exact Hx|]. split; [exact Hy|].
  intros Hpx Hpy Hz. rewrite Hx, Hy, Hpx, Hpy, Hz. split; field.
Qed.

End NodePointerFacts.

Lemma modifier_click_never_drags_witness :
  MindMapCanvas.requests (Session.canvas
    (Session.run (Some Examples.starMap) Examples.nodeA
       (Session.step (Some Examples.starMap) Examples.nodeA Session.idle
          (Session.NodePointerDown MoreExamples.ctrlDown))
       [Session.DocumentPointerMove (Examples.pointerAt MindMapCanvas.mouse 200 200);
        Session.DocumentPointerUp (Examples.pointerAt MindMapCanvas.mouse 200 200)]))
  = MindMapCanvas.requests (Session.canvas
      (Session.step (Some Examples.starMap) Examples.nodeA Session.idle
         (Session.NodePointerDown MoreExamples.ctrlDown))).
Proof.
  refine (proj2 (proj2 (proj2
    (modifier_click_never_drags (Some Examples.starMap) Examples.nodeA
       Session.idle MoreExamples.ctrlDown
       [Session.DocumentPointerMove (Examples.pointerAt MindMapCanvas.mouse 200 200);
        Session.DocumentPointerUp (Examples.pointerAt MindMapCanvas.mouse 200 200)]
       (or_introl eq_refl) eq_refl _)))).
  repeat constructor; eexists; eauto.
Defined.

Lemma drag_sends_displaced_position_witness :
  ∃ x y,
    MindMapCanvas.requests (Session.canvas
      (Session.run (Some Examples.starMap) Examples.nodeA Session.idle
         Examples.dragOfA))
    = [MindMapCanvas.PutNodePosition "A" x y] ∧
    x == 100 + (230 - 130) ∧ y == 100 + (170 - 120).
Proof.
  destruct (drag_sends_displaced_position (Some Examples.starMap) Examples.nodeA
              Session.idle
              (Examples.pointerAt MindMapCanvas.mouse 130 120)
              (Examples.pointerAt MindMapCanvas.mouse 230 170)
              [Examples.pointerAt MindMapCanvas.mouse 140 125;
               Examples.pointerAt MindMapCanvas.mouse 180 150]
              eq_refl eq_refl eq_refl)
    as (x & y & Hreq & _ & _ & Hid).
  exists x, y. split; [exact Hreq|].
  exact (Hid (Qeq_refl _) (Qeq_refl _) (Qeq_refl _)).
Defined.

(** * More about the routes *)

Section RouteFacts.
Import Api.
Local Close Scope Q_scope.
(** The schema of node updates and the rounding of the [real] columns. *)
Variable accepts : NodeUpdates → bool.
Variable stored : Q → Q.
Variable onDeleteCascade : bool.

Lemma filter_all_false {A} (f : A → bool) (l : list A) :
  (∀ a, a ∈ l → f a = false) →
  List.filter f l = [] ∧ List.filter (λ a, negb (f a)) l = l ∧
  ∀ g : A → A, map (λ a, if f a then g a else a) l = l.
Proof.
  induction l as [|a l IH]; intros H; [done|].
  destruct IH as (IH1 & IH2 & IH3); [intros b Hb; apply H; by right|].
  assert (Ha : f a = false) by (apply H; by left).
  simpl. rewrite Ha. simpl. split; [done|]. split; [by rewrite IH2|].
  intros g. by rewrite IH3.
Qed.

(** X16.  Maps are private to their owner.  Without an authenticated user
    every request is answered 401 and changes nothing.  For a user who owns
    no map with the given id, reading, renaming (with a body that passes
    the schema) and deleting that map are all answered 404 "Map not found"
    and change nothing. *)
Theorem maps_are_private (s : Store) (now : Z) (id userId : string) :
  (∀ r, r ∈ mapRows s → owned id userId r = false) →
  (∀ req, handle accepts stored onDeleteCascade None now req s
          = (Respond 401 (Message "Authentication required"), s)) ∧
  handle accepts stored onDeleteCascade (Some userId) now (GetMap id) s
    = (Respond 404 (Message "Map not found"), s) ∧
  (∀ title, handle accepts stored onDeleteCascade (Some userId) now (PutMap id title) s
            = (Respond 404 (Message "Map not found"), s)) ∧
  handle accepts stored onDeleteCascade (Some userId) now (DeleteMap id) s
    = (Respond 404 (Message "Map not found"), s).
Proof.
  intros Hnot.
  destruct (filter_all_false (owned id userId) (mapRows s) Hnot) as (Hnone & Hall & Hmap).
  split; [done|]. split; [|split].
  - simpl. unfold getMap.
    destruct (List.find (owned id userId) (mapRows s)) as [r|] eqn:Hfind; [|done].
    apply find_some in Hfind as [Hin Hown].
    apply list_elem_of_In in Hin. by rewrite (Hnot r Hin) in Hown.
  - intros title. simpl. unfold updateMap. rewrite Hnone, Hmap. simpl.
    by destruct s.
  - simpl. unfold deleteMap. rewrite Hnone, Hall. simpl.
    rewrite andb_false_r. by destruct s.
Qed.


Lemma node_filter_mem (id : string) (l : list Node) :
  ((0 <? length (List.filter (λ n, String.eqb (node_id n) id) l))%nat = true)
  ↔ (id ∈ map node_id l).
Proof.
  induction l as [|n l IH]; simpl.
  - split; [done|]. intros H. by apply elem_of_nil in H.
  - destruct (String.eqb_spec (node_id n) id) as [->|Hne]; simpl.
    + split; [intros _; by left|done].
    + rewrite IH. split; [by right|].
      intros H. apply elem_of_cons in H as [H|H]; [congruence|done].
Qed.

(** X17.  Nodes are not private: the node routes do not look at who owns
    the map.  Any authenticated user, even one who owns no map at all, gets
    204 for the DELETE of an existing node, and the node is gone
    afterwards. *)
Theorem nodes_are_not_private (s : Store) (now : Z) (userId : string) (n : Node) :
  (∀ r, r ∈ mapRows s → mrow_userId r ≠ userId) →
  n ∈ Server.nodeRows (tables s) →
  let result := handle accepts stored onDeleteCascade (Some userId) now (DeleteNode (node_id n)) s in
  fst result = Respond 204 NoBody ∧
  (node_id n ∉ map node_id (Server.nodeRows (tables (snd result)))) ∧
  mapRows (snd result) = mapRows s.
Proof.
  intros _ Hn result. subst result. simpl.
  assert (Hex : (0 <? length (List.filter (λ m, String.eqb (node_id m) (node_id n))
                                (Server.nodeRows (tables s))))%nat = true).
  { apply node_filter_mem. apply list_elem_of_fmap. by exists n. }
  unfold Server.deleteNode. rewrite Hex. simpl.
  split; [done|]. split; [|done].
  intros Hin. apply list_elem_of_fmap in Hin as (m & Hid & Hm).
  apply list_elem_of_In, filter_In in Hm as [_ Hm].
  apply negb_true_iff, String.eqb_neq in Hm. congruence.
Qed.


Lemma deleteNode_rows (id : string) (db : Server.Db) :
  wellReferenced db →
  let result := Server.deleteNode true id db in
  (∀ n, n ∈ Server.nodeRows (snd result)
        ↔ n ∈ Server.nodeRows db ∧ node_id n ≠ id) ∧
  (∀ c, c ∈ Server.connectionRows (snd result)
        ↔ c ∈ Server.connectionRows db ∧ sourceNodeId c ≠ id ∧ targetNodeId c ≠ id).
Proof.
  intros Hwell result. split.
  - intros n. subst result. simpl.
    rewrite !list_elem_of_In, filter_In, negb_true_iff, String.eqb_neq. done.
  - intros c. subst result. unfold Server.deleteNode. cbn [snd Server.connectionRows].
    destruct (0 <? length _)%nat eqn:Hcount; cbn [andb].
    + rewrite !list_elem_of_In, filter_In. unfold Server.incident.
      rewrite negb_true_iff, orb_false_iff, !String.eqb_neq. done.
    + split; [|by intros [? _]]. intros Hc. split; [done|].
      assert (Hid : id ∉ map node_id (Server.nodeRows db)).
      { rewrite <- node_filter_mem. by rewrite Hcount. }
      destruct (Hwell c Hc) as [Hs Ht]. split; congruence.
Qed.

Lemma deleteNode_wellReferenced (id : string) (db : Server.Db) :
  wellReferenced db → wellReferenced (snd (Server.deleteNode true id db)).
Proof.
  intros Hwell. destruct (deleteNode_rows id db Hwell) as [Hnodes Hconns].
  intros c Hc. apply Hconns in Hc as (Hc & Hs & Ht).
  destruct (Hwell c Hc) as [Hsrc Htgt].
  split.
  - apply list_elem_of_fmap in Hsrc as (n & Hid & Hn).
    apply list_elem_of_fmap. exists n. split; [done|].
    apply Hnodes. split; [done|]. congruence.
  - apply list_elem_of_fmap in Htgt as (n & Hid & Hn).
    apply list_elem_of_fmap. exists n. split; [done|].
    apply Hnodes. split; [done|]. congruence.
Qed.

(** X18.  With cascading foreign keys, deleting a node keeps the store
    referentially sound: if every connection referenced stored nodes
    before, every connection does afterwards.  The delete reports success
    exactly when a node with the id was stored; afterwards no node has the
    id, no connection has it as source or target, and every other node and
    connection is still there. *)
Theorem delete_node_keeps_references (id : string) (db : Server.Db) :
  wellReferenced db →
  let result := Server.deleteNode true id db in
  wellReferenced (snd result) ∧
  (fst result = true ↔ id ∈ map node_id (Server.nodeRows db)) ∧
  (∀ n, n ∈ Server.nodeRows (snd result)
        ↔ n ∈ Server.nodeRows db ∧ node_id n ≠ id) ∧
  (∀ c, c ∈ Server.connectionRows (snd result)
        ↔ c ∈ Server.connectionRows db ∧ sourceNodeId c ≠ id ∧ targetNodeId c ≠ id).
Proof.
  intros Hwell result.
  destruct (deleteNode_rows id db Hwell) as [Hnodes Hconns].
  split; [by apply deleteNode_wellReferenced|].
  split; [|split; [exact Hnodes|exact Hconns]].
  subst result. simpl. apply node_filter_mem.
Qed.

Lemma findNode_map_other (f : Node → Node) (id id' : string) (l : list Node) :
  id' ≠ id → (∀ n, node_id (f n) = node_id n) →
  findNode (map (λ n, if String.eqb (node_id n) id then f n else n) l) id'
  = findNode l id'.
Proof.
  intros Hne Hf. unfold findNode.
  induction l as [|n l IH]; [done|]. simpl.
  destruct (String.eqb_spec (node_id n) id) as [Heq|Hn].
  - rewrite Hf. destruct (String.eqb_spec (node_id n) id') as [Heq'|_]; [congruence|].
    exact IH.
  - destruct (String.eqb (node_id n) id'); [done|exact IH].
Qed.

(** X19.  A position update, as [handleNodeMove] sends it, whose body the
    schema accepts, for a stored node whose id is unique: the route answers
    200 with the node as the update leaves it, the coordinates as the
    [real] columns store them and everything else of the node unchanged;
    afterwards a lookup of the id finds that node, every other id is found
    as before, and the connections and maps are untouched.  For an id that
    is not stored the answer is 404 "Node not found" and the store is as
    before.  A body that the schema refuses is answered by no status of the
    route: the error is passed on and the store is as before. *)
Theorem position_update_is_stored
    (s : Store) (now : Z) (userId : string) (n : Node) (x y : Q) :
  accepts (positionUpdate x y) = true →
  NoDup (map node_id (Server.nodeRows (tables s))) →
  n ∈ Server.nodeRows (tables s) →
  let moved := setNode stored (positionUpdate x y) n in
  let result := handle accepts stored onDeleteCascade (Some userId) now
                  (PutNode (node_id n) (positionUpdate x y)) s in
  fst result = Respond 200 (NodeBody moved) ∧
  node_x moved = stored x ∧ node_y moved = stored y ∧
  node_id moved = node_id n ∧ node_text moved = node_text n ∧
  node_mapId moved = node_mapId n ∧ node_shape moved = node_shape n ∧
  node_color moved = node_color n ∧
  findNode (Server.nodeRows (tables (snd result))) (node_id n) = Some moved ∧
  (∀ id, id ≠ node_id n →
     findNode (Server.nodeRows (tables (snd result))) id
     = findNode (Server.nodeRows (tables s)) id) ∧
  Server.connectionRows (tables (snd result)) = Server.connectionRows (tables s) ∧
  mapRows (snd result) = mapRows s ∧
  (∀ id, id ∉ map node_id (Server.nodeRows (tables s)) →
     handle accepts stored onDeleteCascade (Some userId) now
       (PutNode id (positionUpdate x y)) s
     = (Respond 404 (Message "Node not found"), s)) ∧
  (∀ id body, accepts body = false →
     handle accepts stored onDeleteCascade (Some userId) now (PutNode id body) s
     = (NextError, s)).
Proof.
  intros Hok Hnd Hn moved result.
  assert (Hfilter : ∀ l, NoDup (map node_id l) → n ∈ l →
    List.filter (λ m, String.eqb (node_id m) (node_id n)) l = [n] ∧
    findNode (map (λ m, if String.eqb (node_id m) (node_id n)
                        then setNode stored (positionUpdate x y) m else m) l) (node_id n)
    = Some moved).
  { induction l as [|m l IH]; intros Hl Hin; [by apply elem_of_nil in Hin|].
    apply NoDup_cons in Hl as [Hm Hl].
    apply elem_of_cons in Hin as [<-|Hin].
    - simpl. rewrite String.eqb_refl. unfold findNode. simpl.
      rewrite String.eqb_refl. split; [|done]. f_equal.
      assert (Hrest : ∀ a, a ∈ l → String.eqb (node_id a) (node_id n) = false).
      { intros a Ha. apply String.eqb_neq. intros Heq. apply Hm. rewrite <- Heq.
        apply list_elem_of_fmap. by exists a. }
      apply (filter_all_false _ l Hrest).
    - destruct (IH Hl Hin) as [IH1 IH2].
      assert (Hne : node_id m ≠ node_id n).
      { intros Heq. apply Hm. rewrite Heq. apply list_elem_of_fmap. by exists n. }
      simpl. rewrite (proj2 (String.eqb_neq _ _) Hne). split; [done|].
      unfold findNode in *. simpl. by rewrite (proj2 (String.eqb_neq _ _) Hne). }
  destruct (Hfilter _ Hnd Hn) as [Hone Hfind].
  assert (Hmissing : ∀ id, id ∉ map node_id (Server.nodeRows (tables s)) →
    handle accepts stored onDeleteCascade (Some userId) now
      (PutNode id (positionUpdate x y)) s
    = (Respond 404 (Message "Node not found"), s)).
  { intros id Hid. cbn [handle]. rewrite Hok. cbn [negb].
    unfold updateNode. cbn [setsNothing positionUpdate].
    destruct (filter_all_false (λ m, String.eqb (node_id m) id)
                (Server.nodeRows (tables s))) as (Hnone & _ & Hsame).
    { intros a Ha. apply String.eqb_neq. intros Heq. apply Hid. rewrite <- Heq.
      apply list_elem_of_fmap. by exists a. }
    rewrite Hnone, Hsame. cbn [map head].
    destruct s as [rows [ns cs]]. reflexivity. }
  assert (Hrefused : ∀ id body, accepts body = false →
    handle accepts stored onDeleteCascade (Some userId) now (PutNode id body) s
    = (NextError, s)).
  { intros id body Hno. cbn [handle]. by rewrite Hno. }
  assert (Hrun :
    handle accepts stored onDeleteCascade (Some userId) now
      (PutNode (node_id n) (positionUpdate x y)) s
    = (Respond 200 (NodeBody moved),
       {| mapRows := mapRows s;
          tables :=
            {| Server.nodeRows :=
                 map (λ m, if String.eqb (node_id m) (node_id n)
                           then setNode stored (positionUpdate x y) m else m)
                   (Server.nodeRows (tables s));
               Server.connectionRows := Server.connectionRows (tables s) |} |})).
  { cbn [handle]. rewrite Hok. cbn [negb].
    unfold updateNode. cbn [setsNothing positionUpdate]. by rewrite Hone. }
  subst result. rewrite Hrun.
  cbn [fst snd tables mapRows Server.nodeRows Server.connectionRows].
  split; [done|]. split; [done|]. split; [done|]. split; [done|]. split; [done|].
  split; [done|]. split; [done|]. split; [done|]. split; [exact Hfind|].
  split; [by intros id Hid; apply findNode_map_other|].
  split; [done|]. split; [done|]. split; [exact Hmissing|exact Hrefused].
Qed.

End RouteFacts.

Lemma maps_are_private_witness :
  Api.handle ApiExamples.boundedCoordinates Qred true (Some "mallory") 0 (Api.DeleteMap "map-1") ApiExamples.aliceStore
  = (Api.Respond 404 (Api.Message "Map not found"), ApiExamples.aliceStore).
Proof.
  refine (proj2 (proj2 (proj2
    (maps_are_private ApiExamples.boundedCoordinates Qred true ApiExamples.aliceStore 0 "map-1" "mallory" _)))).
  intros r Hr. apply list_elem_of_singleton in Hr as ->. reflexivity.
Defined.

Lemma nodes_are_not_private_witness :
  fst (Api.handle ApiExamples.boundedCoordinates Qred true (Some "mallory") 0 (Api.DeleteNode (node_id Examples.nodeT))
         ApiExamples.aliceStore)
  = Api.Respond 204 Api.NoBody.
Proof.
  refine (proj1 (nodes_are_not_private ApiExamples.boundedCoordinates Qred true ApiExamples.aliceStore 0 "mallory"
                   Examples.nodeT _ _)).
  - intros r Hr. apply list_elem_of_singleton in Hr as ->. discriminate.
  - right. left.
Defined.

Lemma delete_node_keeps_references_witness :
  Api.wellReferenced Examples.storedDb ∧
  Api.wellReferenced (snd (Server.deleteNode true "T" Examples.storedDb)) ∧
  Server.connectionRows (snd (Server.deleteNode true "T" Examples.storedDb)) = [].
Proof.
  assert (H : Api.wellReferenced Examples.storedDb).
  { intros c Hc. apply list_elem_of_singleton in Hc as ->.
    split; apply list_elem_of_In; vm_compute; tauto. }
  split; [exact H|]. split; [|reflexivity].
  exact (proj1 (delete_node_keeps_references "T" Examples.storedDb H)).
Defined.

Lemma position_update_is_stored_witness :
  ApiExamples.boundedCoordinates (Api.positionUpdate 5 7) = true ∧
  fst (Api.handle ApiExamples.boundedCoordinates Qred true (Some "alice") 0
         (Api.PutNode "T" (Api.positionUpdate 5 7)) ApiExamples.aliceStore)
  = Api.Respond 200
      (Api.NodeBody (Api.setNode Qred (Api.positionUpdate 5 7) Examples.nodeT)) ∧
  Api.handle ApiExamples.boundedCoordinates Qred true (Some "alice") 0
    (Api.PutNode "T" (Api.positionUpdate 9000000 7)) ApiExamples.aliceStore
  = (Api.NextError, ApiExamples.aliceStore).
Proof.
  split; [reflexivity|].
  destruct (position_update_is_stored ApiExamples.boundedCoordinates Qred true
              ApiExamples.aliceStore 0 "alice" Examples.nodeT 5 7 eq_refl)
    as (Hreply & Hrest).
  - compute_done.
  - right. left.
  - split; [exact Hreply|].
    apply (proj2 (proj2 (proj2 (proj2 (proj2 (proj2 (proj2 (proj2 (proj2
             (proj2 (proj2 (proj2 Hrest)))))))))))).
    reflexivity.
Defined.

(** * The "last saved" label of the toolbar *)

Section TimeAgo.
Import Toolbar.
Local Close Scope Q_scope.
Local Open Scope Z_scope.

(** X20.  The label counts whole units of the elapsed time: "Saved just
    now" below one minute (also for a timestamp in the future), whole
    minutes from 1 to 59 below one hour, whole hours from 1 to 23 below one
    day, whole days from then on; the unit takes its plural "s" exactly
    when the count exceeds 1. *)
Theorem formatTimeAgo_units (diffMs : Z) :
  (diffMs < 60000 → formatTimeAgo diffMs = "Saved just now") ∧
  (60000 ≤ diffMs < 3600000 →
     1 ≤ diffMs / 60000 ≤ 59 ∧
     formatTimeAgo diffMs
     = "Saved " +:+ pretty.pretty (diffMs / 60000) +:+ " minute"
       +:+ (if decide (diffMs < 120000) then "" else "s") +:+ " ago") ∧
  (3600000 ≤ diffMs < 86400000 →
     1 ≤ diffMs / 3600000 ≤ 23 ∧
     formatTimeAgo diffMs
     = "Saved " +:+ pretty.pretty (diffMs / 3600000) +:+ " hour"
       +:+ (if decide (diffMs < 7200000) then "" else "s") +:+ " ago") ∧
  (86400000 ≤ diffMs →
     1 ≤ diffMs / 86400000 ∧
     formatTimeAgo diffMs
     = "Saved " +:+ pretty.pretty (diffMs / 86400000) +:+ " day"
       +:+ (if decide (diffMs < 172800000) then "" else "s") +:+ " ago").
Proof.
  assert (Hh : diffMs / (1000 * 60) / 60 = diffMs / 3600000).
  { rewrite Z.div_div by lia. reflexivity. }
  assert (Hd : diffMs / (1000 * 60) / 60 / 24 = diffMs / 86400000).
  { rewrite !Z.div_div by lia. reflexivity. }
  unfold formatTimeAgo. cbv zeta. rewrite Hd, Hh.
  change (1000 * 60) with 60000.
  pose proof (Z.div_le_mono diffMs) as Hmono.
  split; [|split; [|split]].
  - intros H.
    assert (diffMs / 60000 < 1) by (apply Z.div_lt_upper_bound; lia).
    by rewrite (proj2 (Z.ltb_lt _ _)).
  - intros [H1 H2].
    assert (1 ≤ diffMs / 60000) by (apply Z.div_le_lower_bound; lia).
    assert (diffMs / 60000 < 60) by (apply Z.div_lt_upper_bound; lia).
    split; [lia|].
    rewrite (proj2 (Z.ltb_ge _ 1)) by lia.
    rewrite (proj2 (Z.ltb_lt _ 60)) by lia.
    unfold plural. case_decide.
    + assert (diffMs / 60000 < 2) by (apply Z.div_lt_upper_bound; lia).
      by rewrite (proj2 (Z.ltb_ge 1 _)) by lia.
    + assert (2 ≤ diffMs / 60000) by (apply Z.div_le_lower_bound; lia).
      by rewrite (proj2 (Z.ltb_lt 1 _)) by lia.
  - intros [H1 H2].
    assert (60 ≤ diffMs / 60000) by (apply Z.div_le_lower_bound; lia).
    assert (1 ≤ diffMs / 3600000) by (apply Z.div_le_lower_bound; lia).
    assert (diffMs / 3600000 < 24) by (apply Z.div_lt_upper_bound; lia).
    split; [lia|].
    rewrite (proj2 (Z.ltb_ge _ 1)) by lia.
    rewrite (proj2 (Z.ltb_ge _ 60)) by lia.
    rewrite (proj2 (Z.ltb_lt _ 24)) by lia.
    unfold plural. case_decide.
    + assert (diffMs / 3600000 < 2) by (apply Z.div_lt_upper_bound; lia).
      by rewrite (proj2 (Z.ltb_ge 1 _)) by lia.
    + assert (2 ≤ diffMs / 3600000) by (apply Z.div_le_lower_bound; lia).
      by rewrite (proj2 (Z.ltb_lt 1 _)) by lia.
  - intros H1.
    assert (60 ≤ diffMs / 60000) by (apply Z.div_le_lower_bound; lia).
    assert (24 ≤ diffMs / 3600000) by (apply Z.div_le_lower_bound; lia).
    assert (1 ≤ diffMs / 86400000) by (apply Z.div_le_lower_bound; lia).
    split; [lia|].
    rewrite (proj2 (Z.ltb_ge _ 1)) by lia.
    rewrite (proj2 (Z.ltb_ge _ 60)) by lia.
    rewrite (proj2 (Z.ltb_ge _ 24)) by lia.
    unfold plural. case_decide.
    + assert (diffMs / 86400000 < 2) by (apply Z.div_lt_upper_bound; lia).
      by rewrite (proj2 (Z.ltb_ge 1 _)) by lia.
    + assert (2 ≤ diffMs / 86400000) by (apply Z.div_le_lower_bound; lia).
      by rewrite (proj2 (Z.ltb_lt 1 _)) by lia.
Qed.

End TimeAgo.

Lemma formatTimeAgo_units_witness :
  (60000 ≤ 150000 < 3600000)%Z ∧
  Toolbar.formatTimeAgo 150000 = "Saved 2 minutes ago".
Proof.
  split; [lia|].
  destruct (formatTimeAgo_units 150000) as (_ & Hminutes & _).
  destruct (Hminutes ltac:(lia)) as [_ Hlabel].
  rewrite Hlabel. reflexivity.
Defined.

(** * From the server to the export *)

Section ExportAfterDelete.
Import ExportService.
Local Close Scope Q_scope.

Lemma NoDup_ids_filter (f : Node → bool) (l : list Node) :
  NoDup (map node_id l) → NoDup (map node_id (List.filter f l)).
Proof.
  induction l as [|n l IH]; intros Hnd; [done|].
  apply NoDup_cons in Hnd as [Hn Hnd]. simpl.
  destruct (f n); [|by apply IH]. simpl. apply NoDup_cons. split; [|by apply IH].
  intros Hin. apply Hn.
  apply list_elem_of_fmap in Hin as (m & Hid & Hm).
  apply list_elem_of_In, filter_In in Hm as [Hm _].
  apply list_elem_of_fmap. exists m. split; [done|]. by apply list_elem_of_In.
Qed.

Lemma filter_all_true {A} (f : A → bool) (l : list A) :
  (∀ a, a ∈ l → f a = true) → List.filter f l = l.
Proof.
  induction l as [|a l IH]; intros H; [done|].
  simpl. rewrite (H a) by (by left). f_equal. apply IH.
  intros b Hb. apply H. by right.
Qed.

Lemma withinMaps_wellReferenced (db : Server.Db) :
  Api.withinMaps db → Api.wellReferenced db.
Proof.
  intros Hin c Hc. destruct (Hin c Hc) as [(s & Hs & Hsid & _) (t & Ht & Htid & _)].
  split; apply list_elem_of_fmap; [by exists s|by exists t].
Qed.

(** Deleting a node, with the cascade, keeps every connection within its
    map. *)
Lemma deleteNode_withinMaps (id : string) (db : Server.Db) :
  Api.withinMaps db → Api.withinMaps (snd (Server.deleteNode true id db)).
Proof.
  intros Hin.
  destruct (deleteNode_rows id db (withinMaps_wellReferenced db Hin))
    as [Hnodes Hconns].
  intros c Hc. apply Hconns in Hc as (Hc & Hsrc & Htgt).
  destruct (Hin c Hc) as [(s & Hs & Hsid & Hsmap) (t & Ht & Htid & Htmap)].
  split.
  - exists s. split; [|done]. apply Hnodes. split; [done|congruence].
  - exists t. split; [|done]. apply Hnodes. split; [done|congruence].
Qed.

(** The store that the DELETE route of a node leaves behind. *)
Lemma handle_DeleteNode_tables accepts stored cascade userId now id s :
  Api.tables (snd (Api.handle accepts stored cascade (Some userId) now
                     (Api.DeleteNode id) s))
  = snd (Server.deleteNode cascade id (Api.tables s)).
Proof.
  cbn [Api.handle].
  by destruct (Server.deleteNode cascade id (Api.tables s)) as [[] db'].
Qed.

(** What [getMap] returns is the map's share of the two tables. *)
Lemma getMap_Some mapId owner s row nodes connections :
  Api.getMap mapId owner s = Some (row, nodes, connections) →
  nodes = List.filter (λ n, String.eqb (node_mapId n) mapId)
            (Server.nodeRows (Api.tables s)) ∧
  connections = List.filter (λ c, String.eqb (conn_mapId c) mapId)
                  (Server.connectionRows (Api.tables s)).
Proof.
  unfold Api.getMap. destruct (List.find _ _); [|done].
  intros [= _ <- <-]. done.
Qed.

Section ExportOfStoredMap.
Variable accepts : Api.NodeUpdates → bool.
Variable stored : Q → Q.

(** X21.  In a store with unique node ids whose connections all join two
    nodes of their own map, a node is deleted through its route, with the
    cascading foreign keys.  The connections still join nodes of their own
    map afterwards, and the Markdown export of any map, as [getMap] returns
    it, shows every node of that map exactly once and never the deleted id,
    and its "Connections" section has one line for every connection of the
    map. *)
Theorem export_after_delete
    (s : Api.Store) (now : Z) (userId owner id mapId : string)
    (row : Api.MapRow) (nodes : list Node) (connections : list Connection) :
  Api.withinMaps (Api.tables s) →
  NoDup (map node_id (Server.nodeRows (Api.tables s))) →
  let s' := snd (Api.handle accepts stored true (Some userId) now
                   (Api.DeleteNode id) s) in
  Api.getMap mapId owner s' = Some (row, nodes, connections) →
  Api.withinMaps (Api.tables s') ∧
  ∃ out,
    linearize nodes connections = Some out ∧
    map fst out ≡ₚ nodes ∧
    (id ∉ map entryId out) ∧
    length (connectionLines nodes connections) = length connections.
Proof.
  intros Hin Hnd s' Hget.
  assert (Htables : Api.tables s' = snd (Server.deleteNode true id (Api.tables s)))
    by apply handle_DeleteNode_tables.
  pose proof (deleteNode_withinMaps id _ Hin) as Hin'.
  destruct (deleteNode_rows id _ (withinMaps_wellReferenced _ Hin)) as [Hrows _].
  rewrite <- Htables in Hin', Hrows.
  assert (Hnd' : NoDup (map node_id (Server.nodeRows (Api.tables s')))).
  { rewrite Htables. simpl. by apply NoDup_ids_filter. }
  apply getMap_Some in Hget as [Hnodes Hconns].
  assert (Hsub : ∀ n, n ∈ nodes →
            n ∈ Server.nodeRows (Api.tables s') ∧ node_mapId n = mapId).
  { intros n Hn. rewrite Hnodes in Hn.
    apply list_elem_of_In, filter_In in Hn as [Hn Hmap].
    split; [by apply list_elem_of_In|by apply String.eqb_eq]. }
  split; [exact Hin'|].
  destruct (linearize_permutation nodes connections) as (out & Hout & Hperm & _).
  { rewrite Hnodes. by apply NoDup_ids_filter. }
  exists out. split; [done|]. split; [done|]. split.
  - intros Hid. apply list_elem_of_fmap in Hid as (e & Hid & He).
    assert (Hfst : fst e ∈ nodes).
    { rewrite <- Hperm. apply list_elem_of_fmap. by exists e. }
    apply Hsub in Hfst as [Hfst _]. apply Hrows in Hfst as [_ Hne]. by apply Hne.
  - rewrite connectionLines_length. f_equal.
    apply filter_all_true. intros c Hc.
    assert (Hc' : c ∈ Server.connectionRows (Api.tables s') ∧ conn_mapId c = mapId).
    { rewrite Hconns in Hc. apply list_elem_of_In, filter_In in Hc as [Hc Hmap].
      split; [by apply list_elem_of_In|by apply String.eqb_eq]. }
    destruct Hc' as [Hc' Hmap].
    destruct (Hin' c Hc') as [(a & Ha & Haid & Hamap) (b & Hb & Hbid & Hbmap)].
    assert (Hmember : ∀ n, n ∈ Server.nodeRows (Api.tables s') →
              node_mapId n = mapId → node_id n ∈ map node_id nodes).
    { intros n Hn Hnmap. apply list_elem_of_fmap. exists n. split; [done|].
      rewrite Hnodes. apply list_elem_of_In, filter_In.
      split; [by apply list_elem_of_In|by apply String.eqb_eq]. }
    unfold renderable. apply andb_true_iff.
    split; apply bool_decide_eq_true; apply findNode_is_Some.
    + rewrite <- Haid. apply Hmember; [done|congruence].
    + rewrite <- Hbid. apply Hmember; [done|congruence].
Qed.

End ExportOfStoredMap.

End ExportAfterDelete.

Lemma export_after_delete_witness :
  ∃ out,
    ExportService.linearize [Examples.nodeA] [] = Some out ∧
    "T" ∉ map entryId out.
Proof.
  assert (Hin : Api.withinMaps (Api.tables ApiExamples.twoMapStore)).
  { intros c Hc. apply list_elem_of_singleton in Hc as ->.
    split; [exists Examples.nodeT|exists Examples.nodeA];
      (split; [apply list_elem_of_In; vm_compute; tauto|done]). }
  destruct (export_after_delete ApiExamples.boundedCoordinates Qred
              ApiExamples.twoMapStore 0 "bob" "alice" "T" "map-1"
              ApiExamples.aliceRow [Examples.nodeA] []
              Hin ltac:(compute_done) eq_refl)
    as (_ & out & Hout & _ & Hid & _).
  exists out. split; [exact Hout|exact Hid].
Defined.
(** * Clicks that land on the nodes container *)

Section CoveredClicks.
Import MindMapCanvas.
Variable map : option MapWithNodes.
Variable node : Node.

(** Without pan and with a zoom of at least 1, the nodes container covers
    every point of the canvas. *)
Lemma containerCovers_unpanned (rect : Q * Q) (st : State) (p : Point) :
  px (panOffset st) == 0 → py (panOffset st) == 0 → 1 <= zoomLevel st →
  0 <= px p → px p < fst rect → 0 <= py p → py p < snd rect →
  containerCovers rect st p = true.
Proof.
  intros Hx Hy Hz Hpx Hw Hpy Hh.
  unfold containerCovers. rewrite !toScreen_unfold. cbn [px py].
  assert (Hwide : px p < fst rect * zoomLevel st + px (panOffset st)) by nra.
  assert (Hhigh : py p < snd rect * zoomLevel st + py (panOffset st)) by nra.
  rewrite !andb_true_iff. unfold Qgt_bool. rewrite !negb_true_iff.
  repeat split.
  - apply Qle_bool_iff. lra.
  - apply not_true_is_false. rewrite Qle_bool_iff. lra.
  - apply Qle_bool_iff. lra.
  - apply not_true_is_false. rewrite Qle_bool_iff. lra.
Qed.

(** X23.  Without pan and with a zoom of at least 1, as when the page is
    opened, a click on a point of the canvas where there is no node lands on
    the nodes container, not on the canvas element, and changes nothing:
    the selection, the pending connection source and the requests are as
    before. *)
Theorem unpanned_click_clears_nothing
    (sys : Session.System) (rect : Q * Q) (p : Point)
    (eDown eUp : PointerEvent) :
  NodeComponent.isDragging (Session.component sys) = false →
  px (panOffset (Session.canvas sys)) == 0 →
  py (panOffset (Session.canvas sys)) == 0 →
  1 <= zoomLevel (Session.canvas sys) →
  0 <= px p → px p < fst rect → 0 <= py p → py p < snd rect →
  let sys' := Session.clickAt map node rect p eDown eUp sys in
  emptySurfaceAt rect (Session.canvas sys) p = NodesContainer ∧
  selectedNodeId (Session.canvas sys') = selectedNodeId (Session.canvas sys) ∧
  connectionStartNode (Session.canvas sys')
    = connectionStartNode (Session.canvas sys) ∧
  requests (Session.canvas sys') = requests (Session.canvas sys).
Proof.
  intros Hd Hx Hy Hz Hpx Hw Hpy Hh sys'.
  pose proof (containerCovers_unpanned rect _ p Hx Hy Hz Hpx Hw Hpy Hh) as Hcov.
  destruct (click_gesture_keeps map node sys eDown eUp Hd) as (Hs & Hc & Hr & _).
  subst sys'. rewrite (clickAt_target map node rect p eDown eUp sys Hd), Hcov.
  split; [by unfold emptySurfaceAt; rewrite Hcov|].
  split; [exact Hs|]. split; [exact Hc|exact Hr].
Qed.

End CoveredClicks.

Lemma unpanned_click_clears_nothing_witness :
  MindMapCanvas.selectedNodeId (Session.canvas Examples.afterCoveredClick)
  = Some "A".
Proof.
  refine (proj1 (proj2
    (unpanned_click_clears_nothing (Some Examples.starMap) Examples.nodeA
       Examples.pendingSystem Examples.canvasRect {| px := 5; py := 5 |}
       (Examples.pointerAt MindMapCanvas.mouse 5 5)
       (Examples.pointerAt MindMapCanvas.mouse 5 5)
       eq_refl _ _ _ _ _ _ _))); vm_compute; congruence.
Defined.
